(** * Variable tracking and breakpoint evaluation of the Tcl debugger

    A shallow embedding of the variable-state engine of
    [src/tcl_debugger.cpp] (the "formatted" debugger), of its script
    controller and of the stepping and running of its console, and of the
    classifier of [src/tcl_integrated_debugger.cpp], with the properties
    the specification states about them and further ones the code shows.

    Conventions of the embedding:
    - [std::string] is [string]; [char] is [ascii];
    - [int] is [Z] (the counters only ever grow by one from zero; signed
      overflow is undefined in C++ and lies outside the model);
    - [std::vector<T>] is [list T], [push_back] appends at the end and
      [back()] is the last element;
    - [std::map<std::string, T>] is [gmap string T];
      [std::map<int, EnhancedBreakpoint>], which the code iterates in key
      order, is an association list kept sorted by key;
    - a method that mutates its object takes the object and returns the
      new one (with the result, when it has one);
    - what the C and C++ libraries decide ([strtod]'s range errors, the
      matches of [std::regex_search]) is a parameter of the model;
    - terminal output is not modelled; neither are the fields that only
      feed it ([simulatedAddress], [estimatedSize], [simulatedMemory],
      [hexDump]: random or display-only, never read by the logic). *)

From Stdlib Require Import ZArith Ascii String List Lia Bool Sorted.
From stdpp Require Import base option list gmap strings.
Import ListNotations.
Local Open Scope string_scope.
Local Open Scope Z_scope.

(** ** [std::string] and stream primitives *)

(** [s.empty()] *)
Definition empty (s : string) : bool :=
  match s with EmptyString => true | String _ _ => false end.

(** [s.front()], on a non-empty string. *)
Definition front (s : string) : option ascii :=
  match s with EmptyString => None | String c _ => Some c end.

(** [s.back()], on a non-empty string. *)
Fixpoint back (s : string) : option ascii :=
  match s with
  | EmptyString => None
  | String c EmptyString => Some c
  | String _ rest => back rest
  end.

Definition is_char (c : ascii) (o : option ascii) : bool :=
  match o with Some d => Ascii.eqb d c | None => false end.

(** [s.find(c) != std::string::npos] *)
Fixpoint contains_char (c : ascii) (s : string) : bool :=
  match s with
  | EmptyString => false
  | String d rest => Ascii.eqb d c || contains_char c rest
  end.

(** [s.find(c)]: the index of the first occurrence, [None] for [npos]. *)
Fixpoint find_char (c : ascii) (s : string) : option nat :=
  match s with
  | EmptyString => None
  | String d rest =>
      if Ascii.eqb d c then Some 0%nat else S <$> find_char c rest
  end.

(** [s.substr(pos)], for [pos <= s.size()]. *)
Fixpoint substr_from (pos : nat) (s : string) : string :=
  match pos, s with
  | O, _ => s
  | S p, String _ rest => substr_from p rest
  | S _, EmptyString => EmptyString
  end.

(** [std::isspace] in the classic locale: space, and [\t \n \v \f \r]. *)
Definition isspace (c : ascii) : bool :=
  let n := nat_of_ascii c in
  (n =? 32)%nat || ((9 <=? n)%nat && (n <=? 13)%nat).

Definition isdigit (c : ascii) : bool :=
  let n := nat_of_ascii c in (48 <=? n)%nat && (n <=? 57)%nat.

(** The words [iss >> element] extracts one after the other from a stream
    over [s]: maximal runs of non-whitespace characters.  [cur] is the
    word read so far. *)
Fixpoint words_from (cur : string) (s : string) : list string :=
  match s with
  | EmptyString => if empty cur then [] else [cur]
  | String c rest =>
      if isspace c
      then (if empty cur then words_from EmptyString rest
            else cur :: words_from EmptyString rest)
      else words_from (cur ++ String c EmptyString) rest
  end.

Definition words (s : string) : list string := words_from EmptyString s.

(** The brace stripping every classifier function starts with:
    [if (v.front() == '{' && v.back() == '}') v = v.substr(1, v.length() - 2);] *)
Definition strip_braces (v : string) : string :=
  if is_char "{" (front v) && is_char "}" (back v)
  then substring 1 (String.length v - 2) v
  else v.

(** ** [std::stod] *)

(** [std::stod(val)] calls [strtod], throws [std::invalid_argument] when
    no conversion was performed and [std::out_of_range] when [strtod] set
    [ERANGE].  [strtod] skips leading white space, takes an optional sign
    and converts the longest prefix that is a decimal or hexadecimal
    floating literal, [inf]/[infinity] or [nan] (case-insensitive); so a
    conversion is performed exactly when what follows the sign starts with
    a digit, with a point and a digit, or with [inf] or [nan]. *)
Fixpoint skip_space (s : string) : string :=
  match s with
  | String c rest => if isspace c then skip_space rest else s
  | EmptyString => s
  end.

Definition skip_sign (s : string) : string :=
  match s with
  | String c rest =>
      if Ascii.eqb c "+" || Ascii.eqb c "-" then rest else s
  | EmptyString => s
  end.

Definition lower (c : ascii) : ascii :=
  let n := nat_of_ascii c in
  if (65 <=? n)%nat && (n <=? 90)%nat then ascii_of_nat (n + 32) else c.

(** [p] (in lower case) is a prefix of [s], ignoring the case of [s]. *)
Fixpoint prefix_nocase (p s : string) : bool :=
  match p, s with
  | EmptyString, _ => true
  | String a p', String b s' => Ascii.eqb a (lower b) && prefix_nocase p' s'
  | String _ _, EmptyString => false
  end.

Definition strtod_converts (val : string) : bool :=
  let subject := skip_sign (skip_space val) in
  match subject with
  | String c rest =>
      isdigit c
      || (Ascii.eqb c "." && match rest with
                             | String d _ => isdigit d
                             | EmptyString => false
                             end)
      || prefix_nocase "inf" subject
      || prefix_nocase "nan" subject
  | EmptyString => false
  end.

(** For which convertible literals [strtod] sets [ERANGE] (overflow, and
    underflow at the implementation's choice) is a property of the C
    library, not of this program: it is an interface the model is
    parameterised by. *)
Class Strtod := strtod_erange : string -> bool.

(** A C library whose [strtod] never reports a range error on the
    literals at hand. *)
Definition strtod_in_range : Strtod := fun _ => false.

Inductive stod_result := stod_value | stod_invalid_argument | stod_out_of_range.

Definition stod `{Strtod} (val : string) : stod_result :=
  if strtod_converts val
  then (if strtod_erange val then stod_out_of_range else stod_value)
  else stod_invalid_argument.

(** ** [struct EnhancedVariableInfo] *)

Record EnhancedVariableInfo := mkVar {
  name : string;
  value : string;
  previousValue : string;
  type : string;
  scope : string;
  lastModifiedLine : Z;
  accessCount : Z;
  refCount : Z;
  isArray : bool;
  isList : bool;
  isDictionary : bool;
  isNumeric : bool;
  isEmpty : bool;
  listElements : list string;
  arrayElements : gmap string string;
  dictElements : gmap string string;
  valueHistory : list string
}.

(** Field assignments. *)
Definition set_type (t : string) (r : EnhancedVariableInfo) :=
  mkVar (name r) (value r) (previousValue r) t (scope r)
        (lastModifiedLine r) (accessCount r) (refCount r)
        (isArray r) (isList r) (isDictionary r) (isNumeric r) (isEmpty r)
        (listElements r) (arrayElements r) (dictElements r) (valueHistory r).

Definition set_flags (a l d n : bool) (r : EnhancedVariableInfo) :=
  mkVar (name r) (value r) (previousValue r) (type r) (scope r)
        (lastModifiedLine r) (accessCount r) (refCount r)
        a l d n (isEmpty r)
        (listElements r) (arrayElements r) (dictElements r) (valueHistory r).

Definition set_isNumeric (b : bool) (r : EnhancedVariableInfo) :=
  set_flags (isArray r) (isList r) (isDictionary r) b r.

Definition set_isList (b : bool) (r : EnhancedVariableInfo) :=
  set_flags (isArray r) b (isDictionary r) (isNumeric r) r.

Definition set_isDictionary (b : bool) (r : EnhancedVariableInfo) :=
  set_flags (isArray r) (isList r) b (isNumeric r) r.

Definition set_listElements (l : list string) (r : EnhancedVariableInfo) :=
  mkVar (name r) (value r) (previousValue r) (type r) (scope r)
        (lastModifiedLine r) (accessCount r) (refCount r)
        (isArray r) (isList r) (isDictionary r) (isNumeric r) (isEmpty r)
        l (arrayElements r) (dictElements r) (valueHistory r).

Definition set_dictElements (d : gmap string string) (r : EnhancedVariableInfo) :=
  mkVar (name r) (value r) (previousValue r) (type r) (scope r)
        (lastModifiedLine r) (accessCount r) (refCount r)
        (isArray r) (isList r) (isDictionary r) (isNumeric r) (isEmpty r)
        (listElements r) (arrayElements r) d (valueHistory r).

Definition set_lastModifiedLine (line : Z) (r : EnhancedVariableInfo) :=
  mkVar (name r) (value r) (previousValue r) (type r) (scope r)
        line (accessCount r) (refCount r)
        (isArray r) (isList r) (isDictionary r) (isNumeric r) (isEmpty r)
        (listElements r) (arrayElements r) (dictElements r) (valueHistory r).

(** *** Structure parsing, the same text in both source files *)

(** [parseList]: every word of the unbraced value. *)
Definition parseList (r : EnhancedVariableInfo) : EnhancedVariableInfo :=
  set_listElements (words (strip_braces (value r))) r.

(** [for (i = 0; i + 1 < elements.size(); i += 2)
       dictElements[elements[i]] = elements[i + 1];] *)
Fixpoint insert_pairs (elements : list string) (d : gmap string string)
  : gmap string string :=
  match elements with
  | k :: v :: rest => insert_pairs rest (<[k := v]> d)
  | _ => d
  end.

Definition parseDictionary (r : EnhancedVariableInfo) : EnhancedVariableInfo :=
  set_dictElements (insert_pairs (words (strip_braces (value r))) ∅) r.

(** [isNumericValue], the same text in both source files. *)
Definition isNumericValue `{Strtod} (val : string) : bool :=
  if empty val then false
  else match stod val with
       | stod_value => true
       | stod_invalid_argument | stod_out_of_range => false
       end.

(** ** The classifier of [src/tcl_debugger.cpp] *)

(** [while (iss >> element && elements.size() < 20) elements.push_back(element);]
    over the words [ws] still in the stream. *)
Fixpoint collect_elements (ws elements : list string) : list string :=
  match ws with
  | [] => elements
  | element :: rest =>
      if (length elements <? 20)%nat
      then collect_elements rest (elements ++ [element])%list
      else elements
  end.

Definition isDictionaryValue (val : string) : bool :=
  if empty val then false
  else
    let cleanVal := strip_braces val in
    let elements := collect_elements (words cleanVal) [] in
    (length elements mod 2 =? 0)%nat
    && (2 <=? length elements)%nat && (length elements <=? 20)%nat.

(** [while (iss >> element && elementCount < 10) elementCount++;] *)
Fixpoint count_elements (ws : list string) (elementCount : Z) : Z :=
  match ws with
  | [] => elementCount
  | _ :: rest =>
      if elementCount <? 10 then count_elements rest (elementCount + 1)
      else elementCount
  end.

Definition isListValue (val : string) : bool :=
  if empty val then false
  else
    let trimmed := strip_braces val in
    let elementCount := count_elements (words trimmed) 0 in
    (1 <? elementCount) && negb (isDictionaryValue val).

Definition analyzeTypeAndStructure `{Strtod} (r0 : EnhancedVariableInfo)
  : EnhancedVariableInfo :=
  let r := set_flags false false false false r0 in
  if isEmpty r then set_type "empty" r
  else if isNumericValue (value r) then
    set_type (if contains_char "." (value r) then "float" else "integer")
             (set_isNumeric true r)
  else if isListValue (value r) then
    parseList (set_type "list" (set_isList true r))
  else if isDictionaryValue (value r) then
    parseDictionary (set_type "dictionary" (set_isDictionary true r))
  else set_type "string" r.

(** ** The classifier of [src/tcl_integrated_debugger.cpp] *)

Module Integrated.

(** [while (iss >> element) elements.push_back(element);] takes every
    word, so [elements] is [words cleanVal]. *)
Definition isDictionaryValue (val : string) : bool :=
  if empty val then false
  else
    let cleanVal := strip_braces val in
    let elements := words cleanVal in
    (length elements mod 2 =? 0)%nat
    && (2 <=? length elements)%nat && (length elements <=? 20)%nat.

Definition isListValue (val : string) : bool :=
  if empty val then false
  else if (is_char "{" (front val) && is_char "}" (back val))
          || contains_char " " val
  then negb (isDictionaryValue val)
  else false.

Definition analyzeTypeAndStructure `{Strtod} (r0 : EnhancedVariableInfo)
  : EnhancedVariableInfo :=
  let r := set_flags false false false false r0 in
  if isEmpty r then set_type "empty" r
  else if isNumericValue (value r) then
    set_type (if contains_char "." (value r) then "float" else "integer")
             (set_isNumeric true r)
  else if isDictionaryValue (value r) then
    parseDictionary (set_type "dictionary" (set_isDictionary true r))
  else if isListValue (value r) then
    parseList (set_type "list" (set_isList true r))
  else set_type "string" r.

(** [EnhancedVariableInfo(n, v, s)], the same text as in the other file. *)
Definition newVariable `{Strtod} (n v s : string) : EnhancedVariableInfo :=
  analyzeTypeAndStructure
    (mkVar n v "" "" s 0 0 1 false false false false (empty v) [] ∅ ∅ []).

End Integrated.

(** *** Construction and update ([src/tcl_debugger.cpp]) *)

(** [EnhancedVariableInfo(n, v, s)] *)
Definition newVariable `{Strtod} (n v s : string) : EnhancedVariableInfo :=
  analyzeTypeAndStructure
    (mkVar n v "" "" s 0 0 1 false false false false (empty v) [] ∅ ∅ []).

(** The history step of [updateValue]:
    [valueHistory.push_back(value);
     if (valueHistory.size() > 10) valueHistory.erase(valueHistory.begin());] *)
Definition push_history (old : string) (h : list string) : list string :=
  let h' := (h ++ [old])%list in
  if (10 <? length h')%nat then tail h' else h'.

Definition updateValue `{Strtod} (newValue : string) (line : Z)
    (r : EnhancedVariableInfo) : EnhancedVariableInfo :=
  let history :=
    if negb (bool_decide (valueHistory r = []))
       || negb (String.eqb (value r) newValue)
    then push_history (value r) (valueHistory r)
    else valueHistory r in
  analyzeTypeAndStructure
    (mkVar (name r) newValue (value r) (type r) (scope r)
           line (accessCount r + 1) (refCount r)
           (isArray r) (isList r) (isDictionary r) (isNumeric r)
           (empty newValue)
           (listElements r) (arrayElements r) (dictElements r) history).

(** ** [struct EnhancedBreakpoint] and [class EnhancedBreakpointManager] *)

Record EnhancedBreakpoint := mkBreakpoint {
  line : Z;
  filename : string;
  condition : string;
  enabled : bool;
  hitCount : Z;
  watchVariable : string;
  memoryCondition : string
}.

(** [EnhancedBreakpoint(l, file, cond)] *)
Definition newBreakpoint (l : Z) (file cond : string) : EnhancedBreakpoint :=
  mkBreakpoint l file cond true 0 "" "".

Definition hit (bp : EnhancedBreakpoint) : EnhancedBreakpoint :=
  mkBreakpoint (line bp) (filename bp) (condition bp) (enabled bp)
               (hitCount bp + 1) (watchVariable bp) (memoryCondition bp).

Definition toggle (bp : EnhancedBreakpoint) : EnhancedBreakpoint :=
  mkBreakpoint (line bp) (filename bp) (condition bp) (negb (enabled bp))
               (hitCount bp) (watchVariable bp) (memoryCondition bp).

(** [std::map<int, EnhancedBreakpoint>]: entries in increasing key order. *)
Definition BreakpointMap := list (Z * EnhancedBreakpoint).

(** [m.find(k)] *)
Fixpoint map_find (k : Z) (m : BreakpointMap) : option EnhancedBreakpoint :=
  match m with
  | [] => None
  | (k', bp) :: rest => if k' =? k then Some bp else map_find k rest
  end.

(** [m[k] = bp] *)
Fixpoint map_assign (k : Z) (bp : EnhancedBreakpoint) (m : BreakpointMap)
  : BreakpointMap :=
  match m with
  | [] => [(k, bp)]
  | (k', bp') :: rest =>
      if k <? k' then (k, bp) :: (k', bp') :: rest
      else if k =? k' then (k, bp) :: rest
      else (k', bp') :: map_assign k bp rest
  end.

(** [m.erase(m.find(k))], when [k] is present. *)
Fixpoint map_erase (k : Z) (m : BreakpointMap) : BreakpointMap :=
  match m with
  | [] => []
  | (k', bp) :: rest => if k' =? k then rest else (k', bp) :: map_erase k rest
  end.

(** [it->second = f(it->second)], when [k] is present. *)
Fixpoint map_modify (f : EnhancedBreakpoint -> EnhancedBreakpoint) (k : Z)
    (m : BreakpointMap) : BreakpointMap :=
  match m with
  | [] => []
  | (k', bp) :: rest =>
      if k' =? k then (k', f bp) :: rest else (k', bp) :: map_modify f k rest
  end.

(** The manager's state is its [breakpoints] member (its
    [watchedVariables] member is never read or written). *)
Record EnhancedBreakpointManager := mkManager {
  breakpoints : BreakpointMap
}.

Definition addBreakpoint (l : Z) (file cond : string)
    (m : EnhancedBreakpointManager) : EnhancedBreakpointManager :=
  mkManager (map_assign l (newBreakpoint l file cond) (breakpoints m)).

Definition addVariableWatchBreakpoint (l : Z) (varName cond : string)
    (m : EnhancedBreakpointManager) : EnhancedBreakpointManager :=
  let bp := newBreakpoint l "" cond in
  let bp := mkBreakpoint (line bp) (filename bp) (condition bp) (enabled bp)
                         (hitCount bp) varName cond in
  mkManager (map_assign l bp (breakpoints m)).

Definition removeBreakpoint (l : Z) (m : EnhancedBreakpointManager)
  : EnhancedBreakpointManager :=
  match map_find l (breakpoints m) with
  | Some _ => mkManager (map_erase l (breakpoints m))
  | None => m
  end.

(** [hasBreakpoint] is not [const], but it writes nothing: the manager
    comes back as it went in. *)
Definition hasBreakpoint (l : Z) (m : EnhancedBreakpointManager)
  : bool * EnhancedBreakpointManager :=
  (match map_find l (breakpoints m) with
   | Some bp => enabled bp
   | None => false
   end, m).

Definition hitBreakpoint (l : Z) (m : EnhancedBreakpointManager)
  : EnhancedBreakpointManager :=
  match map_find l (breakpoints m) with
  | Some _ => mkManager (map_modify hit l (breakpoints m))
  | None => m
  end.

Definition toggleBreakpoint (l : Z) (m : EnhancedBreakpointManager)
  : EnhancedBreakpointManager :=
  match map_find l (breakpoints m) with
  | Some _ => mkManager (map_modify toggle l (breakpoints m))
  | None => m
  end.

(** The body of the loop of [checkVariableWatchBreakpoint] for a
    breakpoint that is enabled and watches the variable, after its
    [hitCount++]: does this iteration [return true]? *)
Definition watch_returns_true (bp : EnhancedBreakpoint)
    (oldValue newValue : string) : bool :=
  if negb (empty (memoryCondition bp)) then
    if String.eqb (memoryCondition bp) "changed"
       && negb (String.eqb oldValue newValue)
    then true
    else match find_char "=" (memoryCondition bp) with
         | Some pos =>
             let expectedValue := substr_from (pos + 1) (memoryCondition bp) in
             String.eqb newValue expectedValue
         | None => false
         end
  else negb (String.eqb oldValue newValue).

(** [for (auto& [line, bp] : breakpoints) ...], with its early return. *)
Fixpoint watch_loop (varName oldValue newValue : string) (m : BreakpointMap)
  : bool * BreakpointMap :=
  match m with
  | [] => (false, [])
  | (l, bp) :: rest =>
      if enabled bp && String.eqb (watchVariable bp) varName then
        let bp' := hit bp in
        if watch_returns_true bp' oldValue newValue
        then (true, (l, bp') :: rest)
        else let (r, rest') := watch_loop varName oldValue newValue rest in
             (r, (l, bp') :: rest')
      else let (r, rest') := watch_loop varName oldValue newValue rest in
           (r, (l, bp) :: rest')
  end.

Definition checkVariableWatchBreakpoint (varName oldValue newValue : string)
    (m : EnhancedBreakpointManager) : bool * EnhancedBreakpointManager :=
  let (r, bps) := watch_loop varName oldValue newValue (breakpoints m) in
  (r, mkManager bps).

(** *** The console's entry points ([class DebugConsole]) *)

(** [setBreakpoint(line)], with the script the controller has loaded. *)
Definition setBreakpoint (currentScript : string) (l : Z)
    (m : EnhancedBreakpointManager) : EnhancedBreakpointManager :=
  addBreakpoint l currentScript "" m.

(** [setVariableBreakpoint(varname)]: "Watch on any line", stored at key 0. *)
Definition setVariableBreakpoint (varname : string)
    (m : EnhancedBreakpointManager) : EnhancedBreakpointManager :=
  addVariableWatchBreakpoint 0 varname "" m.

(** ** [class MemoryAwareVariableTracker] *)

(** The arguments of one call of the change callback. *)
Record ChangeEvent := mkEvent {
  ev_name : string;
  ev_old : string;
  ev_new : string
}.

(** [variableChangeCallback] holds whether a callback is installed; the
    calls made to it are returned by the method that makes them. *)
Record MemoryAwareVariableTracker := mkTracker {
  globalVariables : gmap string EnhancedVariableInfo;
  scopeStack : list (gmap string EnhancedVariableInfo);
  watchedVariables : list string;
  realTimeMonitoring : bool;
  variableChangeCallback : bool
}.

(** [MemoryAwareVariableTracker()] *)
Definition newTracker : MemoryAwareVariableTracker :=
  mkTracker ∅ [] [] true false.

Definition setVariableChangeCallback (t : MemoryAwareVariableTracker)
  : MemoryAwareVariableTracker :=
  mkTracker (globalVariables t) (scopeStack t) (watchedVariables t)
            (realTimeMonitoring t) true.

Definition enableRealTimeMonitoring (enable : bool)
    (t : MemoryAwareVariableTracker) : MemoryAwareVariableTracker :=
  mkTracker (globalVariables t) (scopeStack t) (watchedVariables t)
            enable (variableChangeCallback t).

Definition set_globalVariables (g : gmap string EnhancedVariableInfo)
    (t : MemoryAwareVariableTracker) : MemoryAwareVariableTracker :=
  mkTracker g (scopeStack t) (watchedVariables t)
            (realTimeMonitoring t) (variableChangeCallback t).

Definition set_scopeStack (s : list (gmap string EnhancedVariableInfo))
    (t : MemoryAwareVariableTracker) : MemoryAwareVariableTracker :=
  mkTracker (globalVariables t) s (watchedVariables t)
            (realTimeMonitoring t) (variableChangeCallback t).

(** [scopeStack.back()] changed in place by [f]. *)
Definition alter_back (f : gmap string EnhancedVariableInfo ->
                           gmap string EnhancedVariableInfo)
    (stack : list (gmap string EnhancedVariableInfo))
  : list (gmap string EnhancedVariableInfo) :=
  alter f (pred (length stack)) stack.

(** The map a pointer returned by [getVariableInfo] points into. *)
Inductive VarRef := InLocalScope | InGlobalScope.

(** [getVariableInfo(name)]: a pointer (the map it points into, with the
    record found there), or [None] for [nullptr]. *)
Definition getVariableInfo (n : string) (t : MemoryAwareVariableTracker)
  : option (VarRef * EnhancedVariableInfo) :=
  match last (scopeStack t) ≫= (fun localScope => localScope !! n) with
  | Some r => Some (InLocalScope, r)
  | None =>
      match globalVariables t !! n with
      | Some r => Some (InGlobalScope, r)
      | None => None
      end
  end.

(** The record behind the pointer, for the readers of [getVariableInfo]. *)
Definition get (n : string) (t : MemoryAwareVariableTracker)
  : option EnhancedVariableInfo :=
  snd <$> getVariableInfo n t.

Definition pushScope (t : MemoryAwareVariableTracker)
  : MemoryAwareVariableTracker :=
  set_scopeStack (scopeStack t ++ [∅])%list t.

Definition popScope (t : MemoryAwareVariableTracker)
  : MemoryAwareVariableTracker :=
  match scopeStack t with
  | [] => t
  | _ :: _ => set_scopeStack (removelast (scopeStack t)) t
  end.

(** [addVariable(name, value, scope, line)]: the tracker afterwards, and
    the calls made to the change callback. *)
Definition addVariable `{Strtod} (n v s : string) (l : Z)
    (t : MemoryAwareVariableTracker)
  : MemoryAwareVariableTracker * list ChangeEvent :=
  let existingVar := getVariableInfo n t in
  let oldValue :=
    match existingVar with Some (_, r) => value r | None => "" end in
  let t' :=
    match existingVar with
    | Some (InLocalScope, _) =>
        set_scopeStack
          (alter_back (alter (updateValue v l) n) (scopeStack t)) t
    | Some (InGlobalScope, _) =>
        set_globalVariables (alter (updateValue v l) n (globalVariables t)) t
    | None =>
        let var := set_lastModifiedLine l (newVariable n v s) in
        if String.eqb s "global"
        then set_globalVariables (<[n := var]> (globalVariables t)) t
        else if negb (bool_decide (scopeStack t = []))
        then set_scopeStack (alter_back (<[n := var]>) (scopeStack t)) t
        else t
    end in
  (t', if variableChangeCallback t then [mkEvent n oldValue v] else []).

Definition set_watchedVariables (w : list string)
    (t : MemoryAwareVariableTracker) : MemoryAwareVariableTracker :=
  mkTracker (globalVariables t) (scopeStack t) w
            (realTimeMonitoring t) (variableChangeCallback t).

Definition addToWatchList (varName : string)
    (t : MemoryAwareVariableTracker) : MemoryAwareVariableTracker :=
  set_watchedVariables (watchedVariables t ++ [varName])%list t.

(** [erase(std::find(...))]: the first occurrence goes. *)
Fixpoint erase_first (varName : string) (w : list string) : list string :=
  match w with
  | [] => []
  | x :: rest =>
      if String.eqb x varName then rest else x :: erase_first varName rest
  end.

Definition removeFromWatchList (varName : string)
    (t : MemoryAwareVariableTracker) : MemoryAwareVariableTracker :=
  set_watchedVariables (erase_first varName (watchedVariables t)) t.

(** ** Notions the specification uses *)

(** The type tag the classifier of [src/tcl_debugger.cpp] gives a raw
    value: the [type] of a record constructed to hold it. *)
Definition classify `{Strtod} (raw : string) : string :=
  type (newVariable "" raw "global").

(** The same for the classifier of [src/tcl_integrated_debugger.cpp]. *)
Definition classify_integrated `{Strtod} (raw : string) : string :=
  type (Integrated.newVariable "" raw "global").

(** The states of a tracker that its public methods can produce. *)
Inductive reachable `{Strtod} : MemoryAwareVariableTracker -> Prop :=
| reach_new : reachable newTracker
| reach_addVariable n v s l t :
    reachable t -> reachable (addVariable n v s l t).1
| reach_pushScope t : reachable t -> reachable (pushScope t)
| reach_popScope t : reachable t -> reachable (popScope t)
| reach_callback t : reachable t -> reachable (setVariableChangeCallback t)
| reach_monitoring b t : reachable t -> reachable (enableRealTimeMonitoring b t)
| reach_watch x t : reachable t -> reachable (addToWatchList x t)
| reach_unwatch x t : reachable t -> reachable (removeFromWatchList x t).

(** [r] is stored under [n], in the global map or in a frame of the stack. *)
Definition stored (t : MemoryAwareVariableTracker) (n : string)
    (r : EnhancedVariableInfo) : Prop :=
  globalVariables t !! n = Some r
  \/ exists frame, frame ∈ scopeStack t /\ frame !! n = Some r.

(** The stored tag is the tag of the stored value. *)
Definition fresh `{Strtod} (r : EnhancedVariableInfo) : Prop :=
  type r = classify (value r).

(** Every record of the tracker is fresh. *)
Definition all_fresh `{Strtod} (t : MemoryAwareVariableTracker) : Prop :=
  map_Forall (fun _ r => fresh r) (globalVariables t)
  /\ Forall (map_Forall (fun _ r => fresh r)) (scopeStack t).

(** The record the top frame holds for [n], if there is one. *)
Definition local_lookup (n : string) (t : MemoryAwareVariableTracker)
  : option EnhancedVariableInfo :=
  last (scopeStack t) ≫= (fun localScope => localScope !! n).

(** A run of [set] calls on one name: each with its value, scope and line. *)
Definition set_all `{Strtod} (n : string) (calls : list (string * string * Z))
    (t : MemoryAwareVariableTracker) : MemoryAwareVariableTracker :=
  fold_left (fun t c => (addVariable n c.1.1 c.1.2 c.2 t).1) calls t.

(** A run of [updateValue] calls on one record. *)
Definition update_all `{Strtod} (updates : list (string * Z))
    (r : EnhancedVariableInfo) : EnhancedVariableInfo :=
  fold_left (fun r u => updateValue u.1 u.2 r) updates r.

(** [int] counters are followed up to [INT_MAX]. *)
Definition INT_MAX : Z := 2147483647.

(** The last [k] elements of [l]. *)
Definition last_n {A} (k : nat) (l : list A) : list A :=
  drop (length l - k) l.

(** The breakpoint of an entry is enabled and watches [varName]. *)
Definition watches (varName : string) (e : Z * EnhancedBreakpoint) : bool :=
  enabled e.2 && String.eqb (watchVariable e.2) varName.

(** ** Further members of the source, for the properties below *)

(** [getTypeIcon] of [src/tcl_debugger.cpp]. *)
Definition getTypeIcon (r : EnhancedVariableInfo) : string :=
  if String.eqb (type r) "integer" then "[INT]"
  else if String.eqb (type r) "float" then "[FLT]"
  else if String.eqb (type r) "string" then "[STR]"
  else if String.eqb (type r) "list" then "[LST]"
  else if String.eqb (type r) "dictionary" then "[DCT]"
  else if String.eqb (type r) "array" then "[ARR]"
  else if String.eqb (type r) "empty" then "[EMP]"
  else "[???]".

(** The key-value pairs the loop of [parseDictionary] walks through:
    [(elements[i], elements[i + 1])] for [i = 0, 2, ...] while
    [i + 1 < elements.size()]. *)
Fixpoint pair_up (elements : list string) : list (string * string) :=
  match elements with
  | k :: v :: rest => (k, v) :: pair_up rest
  | _ => []
  end.

(** The flags of a record say what its tag says, and the tag has an icon. *)
Definition flags_agree (r : EnhancedVariableInfo) : Prop :=
  isEmpty r = empty (value r)
  /\ isArray r = false
  /\ isNumeric r = (String.eqb (type r) "integer" || String.eqb (type r) "float")
  /\ isList r = String.eqb (type r) "list"
  /\ isDictionary r = String.eqb (type r) "dictionary"
  /\ getTypeIcon r <> "[???]".

(** The structural views of a record are those of its current value. *)
Definition views_agree (r : EnhancedVariableInfo) : Prop :=
  (type r = "list" ->
   listElements r = words (strip_braces (value r))
   /\ (2 <= length (listElements r))%nat)
  /\ (type r = "dictionary" ->
      dictElements r
      = list_to_map (reverse (pair_up (words (strip_braces (value r)))))).

(** The history of a record is bounded and ends with the previous value. *)
Definition history_ok (r : EnhancedVariableInfo) : Prop :=
  (length (valueHistory r) <= 10)%nat
  /\ (valueHistory r <> [] -> last (valueHistory r) = Some (previousValue r)).

(** *** [namespace Format] *)

(** [std::string(n, c)] *)
Fixpoint fill (n : nat) (c : ascii) : string :=
  match n with
  | O => EmptyString
  | S k => String c (fill k c)
  end.

Definition padRight (str : string) (width : nat) : string :=
  if (width <=? String.length str)%nat then str
  else str ++ fill (width - String.length str) " ".

Definition padLeft (str : string) (width : nat) : string :=
  if (width <=? String.length str)%nat then str
  else fill (width - String.length str) " " ++ str.

Definition center (str : string) (width : nat) : string :=
  if (width <=? String.length str)%nat then str
  else
    let padding := (width - String.length str)%nat in
    let leftPad := (padding / 2)%nat in
    let rightPad := (padding - leftPad)%nat in
    fill leftPad " " ++ str ++ fill rightPad " ".

(** The value cell of [displayVariableRow]: the quoted value, cut to 22
    characters and an ellipsis when longer than 25, padded to 25. *)
Definition value_cell (r : EnhancedVariableInfo) : string :=
  let valueStr := "'" ++ value r ++ "'" in
  let valueStr :=
    if (25 <? String.length valueStr)%nat
    then substring 0 22 valueStr ++ "..."
    else valueStr in
  padRight valueStr 25.

(** *** The breakpoint registry as a whole *)

(** The entry is enabled, watches the variable, and its condition holds
    for the change: the loop of [checkVariableWatchBreakpoint] returns
    [true] at it. *)
Definition fires (varName oldValue newValue : string)
    (e : Z * EnhancedBreakpoint) : bool :=
  watches varName e && watch_returns_true (hit e.2) oldValue newValue.

(** One pass of the loop over an entry it does not return at. *)
Definition count_hit (varName : string) (e : Z * EnhancedBreakpoint)
  : Z * EnhancedBreakpoint :=
  if watches varName e then (e.1, hit e.2) else e.

(** What [std::map] guarantees of its entries, and what the manager adds:
    the keys increase strictly, and each breakpoint carries its key as
    its [line]. *)
Definition well_formed (m : BreakpointMap) : Prop :=
  StronglySorted Z.lt m.*1 /\ Forall (fun e => line e.2 = e.1) m.

(** The managers the public methods produce from the empty one. *)
Inductive manager_reachable : EnhancedBreakpointManager -> Prop :=
| mr_new : manager_reachable (mkManager [])
| mr_add l file cond m :
    manager_reachable m -> manager_reachable (addBreakpoint l file cond m)
| mr_watch l varName cond m :
    manager_reachable m ->
    manager_reachable (addVariableWatchBreakpoint l varName cond m)
| mr_remove l m :
    manager_reachable m -> manager_reachable (removeBreakpoint l m)
| mr_hit l m : manager_reachable m -> manager_reachable (hitBreakpoint l m)
| mr_toggle l m :
    manager_reachable m -> manager_reachable (toggleBreakpoint l m)
| mr_check varName oldValue newValue m :
    manager_reachable m ->
    manager_reachable
      (checkVariableWatchBreakpoint varName oldValue newValue m).2.

(** ** [class ScriptExecutionController] *)

Inductive ExecutionMode := STEP_INTO | STEP_OVER | CONTINUE | PAUSED.

(** [struct EnhancedStackFrame] *)
Module StackFrame.
Record EnhancedStackFrame := mkFrame {
  functionName : string;
  line : Z;
  filename : string;
  localVariables : gmap string EnhancedVariableInfo
}.
End StackFrame.

Record ScriptExecutionController := mkController {
  mode : ExecutionMode;
  scriptLines : list string;
  currentLine : Z;
  isRunning : bool;
  callStack : list StackFrame.EnhancedStackFrame;
  currentScript : string
}.

(** [ScriptExecutionController()] *)
Definition newController : ScriptExecutionController :=
  mkController PAUSED [] 0 false [] "".

(** [loadScript(filePath)].  [file] is what the file system gives: [None]
    when the file does not open, else the lines [std::getline] reads. *)
Definition loadScript (filePath : string) (file : option (list string))
    (c : ScriptExecutionController) : bool * ScriptExecutionController :=
  match file with
  | None => (false, c)
  | Some lines => (true, mkController (mode c) lines 1 false [] filePath)
  end.

Definition set_mode (md : ExecutionMode) (running : bool)
    (c : ScriptExecutionController) : ScriptExecutionController :=
  mkController md (scriptLines c) (currentLine c) running
               (callStack c) (currentScript c).

Definition ctl_stepInto (c : ScriptExecutionController) :=
  set_mode STEP_INTO (isRunning c) c.

Definition ctl_stepOver (c : ScriptExecutionController) :=
  set_mode STEP_OVER (isRunning c) c.

Definition ctl_continueExecution (c : ScriptExecutionController) :=
  set_mode CONTINUE true c.

Definition pause (c : ScriptExecutionController) := set_mode PAUSED false c.

Definition setCurrentLine (l : Z) (c : ScriptExecutionController) :=
  mkController (mode c) (scriptLines c) l (isRunning c)
               (callStack c) (currentScript c).

Definition getCurrentLineText (c : ScriptExecutionController) : string :=
  if (0 <? currentLine c) && (currentLine c <=? Z.of_nat (length (scriptLines c)))
  then default "" (scriptLines c !! Z.to_nat (currentLine c - 1))
  else "".

Definition advanceLine (c : ScriptExecutionController)
  : bool * ScriptExecutionController :=
  if currentLine c <? Z.of_nat (length (scriptLines c))
  then (true, setCurrentLine (currentLine c + 1) c)
  else (false, c).

Definition set_callStack (st : list StackFrame.EnhancedStackFrame)
    (c : ScriptExecutionController) : ScriptExecutionController :=
  mkController (mode c) (scriptLines c) (currentLine c) (isRunning c)
               st (currentScript c).

Definition enterFunction (fn : string) (l : Z)
    (c : ScriptExecutionController) : ScriptExecutionController :=
  set_callStack
    (callStack c ++ [StackFrame.mkFrame fn l (currentScript c) ∅])%list c.

Definition exitFunction (c : ScriptExecutionController)
  : ScriptExecutionController :=
  match callStack c with
  | [] => c
  | _ :: _ => set_callStack (removelast (callStack c)) c
  end.

(** ** [class DebugConsole]: stepping and running *)

(** The two [std::regex_search] calls of [simulateLineExecution], as the
    regular-expression library answers them: for the pattern of a [set]
    command the two captured groups (name, value), for the pattern of a
    [proc] header the captured name; [None] when there is no match. *)
Class Regex := mkRegex {
  regex_search_set : string -> option (string * string);
  regex_search_proc : string -> option string
}.

(** A library that finds no match; the scripts of the scenarios below have
    no [set] or [proc] line, so they never ask. *)
Definition regex_no_match : Regex := mkRegex (fun _ => None) (fun _ => None).

(** The answers of the library on the lines of the script
    [proc area {} {] / [set width 10] / [}]: the [proc] pattern finds
    [proc area] in the first line and captures [area]; the [set] pattern
    matches the whole second line and captures [width] and [10].  The
    closing brace holds neither [set ] nor [proc ], so the code never
    asks about it. *)
Definition regex_demo : Regex :=
  mkRegex
    (fun text =>
       if String.eqb text "set width 10" then Some ("width", "10") else None)
    (fun text =>
       if String.eqb text "proc area {} {" then Some "area" else None).

(** [p] starts [s]. *)
Fixpoint starts_with (p s : string) : bool :=
  match p, s with
  | EmptyString, _ => true
  | String a p', String b s' => Ascii.eqb a b && starts_with p' s'
  | String _ _, EmptyString => false
  end.

(** [s.find(p) != std::string::npos], for a non-empty [p]. *)
Fixpoint has_substring (p s : string) : bool :=
  starts_with p s
  || match s with
     | EmptyString => false
     | String _ rest => has_substring p rest
     end.

(** The console's state: its three components ([promptSymbol] and
    [isRunning] belong to the command loop). *)
Record DebugConsole := mkConsole {
  breakpointManager : EnhancedBreakpointManager;
  variableTracker : MemoryAwareVariableTracker;
  executionController : ScriptExecutionController
}.

(** [DebugConsole()]: fresh components, and a change callback (it only
    prints) installed in the tracker. *)
Definition newConsole : DebugConsole :=
  mkConsole (mkManager []) (setVariableChangeCallback newTracker)
            newController.

(** The clean-up of a captured value: one layer of double quotes or of
    braces is removed. *)
Definition unquote (v : string) : string :=
  if (is_char "034" (front v) && is_char "034" (back v))
     || (is_char "{" (front v) && is_char "}" (back v))
  then substring 1 (String.length v - 2) v
  else v.

Definition simulateLineExecution `{Strtod} `{Regex} (text : string)
    (lineNum : Z) (c : DebugConsole) : DebugConsole :=
  let c1 :=
    if has_substring "set " text then
      match regex_search_set text with
      | Some (varName, v) =>
          mkConsole (breakpointManager c)
            (addVariable varName (unquote v) "global" lineNum
               (variableTracker c)).1
            (executionController c)
      | None => c
      end
    else c in
  if has_substring "proc " text then
    match regex_search_proc text with
    | Some procName =>
        mkConsole (breakpointManager c1)
          (pushScope (variableTracker c1))
          (enterFunction procName lineNum (executionController c1))
    | None => c1
    end
  else c1.

Definition simulateStepExecution `{Strtod} `{Regex} (c : DebugConsole)
  : DebugConsole :=
  let line := currentLine (executionController c) in
  let lineText := getCurrentLineText (executionController c) in
  if negb (empty lineText) then
    let c1 := simulateLineExecution lineText line c in
    let (isHit, manager) := hasBreakpoint line (breakpointManager c1) in
    let controller :=
      if isHit then pause (executionController c1)
      else executionController c1 in
    mkConsole manager (variableTracker c1) (advanceLine controller).2
  else c.

Definition stepInto `{Strtod} `{Regex} (c : DebugConsole) : DebugConsole :=
  simulateStepExecution
    (mkConsole (breakpointManager c) (variableTracker c)
               (ctl_stepInto (executionController c))).

Definition stepOver `{Strtod} `{Regex} (c : DebugConsole) : DebugConsole :=
  simulateStepExecution
    (mkConsole (breakpointManager c) (variableTracker c)
               (ctl_stepOver (executionController c))).

(** [simulateVariableAssignments] *)
Definition simulateVariableAssignments `{Strtod}
    (t : MemoryAwareVariableTracker) : MemoryAwareVariableTracker :=
  let t := (addVariable "counter" "42" "global" 10 t).1 in
  let t := (addVariable "name" "HelloWorld" "global" 11 t).1 in
  let t := (addVariable "pi" "3.14159" "global" 12 t).1 in
  let t := (addVariable "items" "{apple banana cherry}" "global" 13 t).1 in
  let t := (addVariable "config" "{host localhost port 8080}" "global" 14 t).1 in
  let t := (addVariable "enabled" "true" "global" 15 t).1 in
  let t := (addVariable "counter" "43" "global" 20 t).1 in
  (addVariable "counter" "44" "global" 25 t).1.

(** [simulateFunctionCalls] *)
Definition simulateFunctionCalls `{Strtod} (c : DebugConsole) : DebugConsole :=
  let e := enterFunction "calculateArea" 30 (executionController c) in
  let t := pushScope (variableTracker c) in
  let t := (addVariable "width" "10" "local" 31 t).1 in
  let t := (addVariable "height" "20" "local" 32 t).1 in
  let t := (addVariable "area" "200" "local" 33 t).1 in
  let e := enterFunction "validateInput" 35 e in
  let t := pushScope t in
  let t := (addVariable "input" "valid" "local" 36 t).1 in
  let t := popScope t in
  let e := exitFunction e in
  let t := popScope t in
  let e := exitFunction e in
  mkConsole (breakpointManager c) t e.

(** [runScript], which is [simulateScriptExecution]. *)
Definition runScript `{Strtod} (c : DebugConsole) : DebugConsole :=
  simulateFunctionCalls
    (mkConsole (breakpointManager c)
               (simulateVariableAssignments (variableTracker c))
               (executionController c)).

(** [continueExecution] *)
Definition continueExecution `{Strtod} (c : DebugConsole) : DebugConsole :=
  runScript
    (mkConsole (breakpointManager c) (variableTracker c)
               (ctl_continueExecution (executionController c))).

(** The console's [loadScript]. *)
Definition console_loadScript (filePath : string) (file : option (list string))
    (c : DebugConsole) : DebugConsole :=
  mkConsole (breakpointManager c) (variableTracker c)
            (loadScript filePath file (executionController c)).2.

(** The consoles the commands [load], [step], [next], [run], [continue],
    [pause], [break], [breakvar], [unbreak], [watch], [unwatch] and
    [monitor] produce from a new one; the other commands only print.
    [processCommand] refuses some arguments (a line that is not positive,
    an empty name), which only makes the set smaller. *)
Inductive console_reachable `{Strtod} `{Regex} : DebugConsole -> Prop :=
| cr_new : console_reachable newConsole
| cr_load filePath file c :
    console_reachable c -> console_reachable (console_loadScript filePath file c)
| cr_step c : console_reachable c -> console_reachable (stepInto c)
| cr_next c : console_reachable c -> console_reachable (stepOver c)
| cr_run c : console_reachable c -> console_reachable (runScript c)
| cr_continue c : console_reachable c -> console_reachable (continueExecution c)
| cr_pause c :
    console_reachable c ->
    console_reachable
      (mkConsole (breakpointManager c) (variableTracker c)
                 (pause (executionController c)))
| cr_break l c :
    console_reachable c ->
    console_reachable
      (mkConsole (setBreakpoint (currentScript (executionController c)) l
                    (breakpointManager c))
                 (variableTracker c) (executionController c))
| cr_breakvar varname c :
    console_reachable c ->
    console_reachable
      (mkConsole (setVariableBreakpoint varname (breakpointManager c))
                 (variableTracker c) (executionController c))
| cr_unbreak l c :
    console_reachable c ->
    console_reachable
      (mkConsole (removeBreakpoint l (breakpointManager c))
                 (variableTracker c) (executionController c))
| cr_watch varname c :
    console_reachable c ->
    console_reachable
      (mkConsole (breakpointManager c)
                 (addToWatchList varname (variableTracker c))
                 (executionController c))
| cr_unwatch varname c :
    console_reachable c ->
    console_reachable
      (mkConsole (breakpointManager c)
                 (removeFromWatchList varname (variableTracker c))
                 (executionController c))
| cr_monitor b c :
    console_reachable c ->
    console_reachable
      (mkConsole (breakpointManager c)
                 (enableRealTimeMonitoring b (variableTracker c))
                 (executionController c)).

(** [n] applications of [f]. *)
Fixpoint repeat_call {A} (f : A -> A) (n : nat) (x : A) : A :=
  match n with
  | O => x
  | S k => repeat_call f k (f x)
  end.

(** * Properties *)

(** ** Strings *)

(** [append] is kept folded by the map library; this is its second equation. *)
Lemma append_String (d : ascii) (s rest : string) :
  String d s ++ rest = String d (s ++ rest).
Proof. reflexivity. Qed.

Lemma back_snoc (s : string) (c : ascii) :
  back (s ++ String c EmptyString) = Some c.
Proof.
  induction s as [|d s IH]; [reflexivity|].
  change (String d s ++ String c EmptyString)
    with (String d (s ++ String c EmptyString)).
  cbn [back]. rewrite IH.
  destruct (s ++ String c EmptyString) eqn:E; [|reflexivity].
  destruct s; discriminate E.
Qed.

Lemma substring_prefix (s rest : string) :
  substring 0 (String.length s) (s ++ rest) = s.
Proof.
  induction s as [|d s IH].
  - destruct rest; reflexivity.
  - change (String d s ++ rest) with (String d (s ++ rest)).
    cbn [String.length substring]. now rewrite IH.
Qed.

Lemma length_snoc (s : string) (c : ascii) :
  String.length (s ++ String c EmptyString) = S (String.length s).
Proof.
  induction s as [|d s IH]; [reflexivity|].
  rewrite append_String. cbn [String.length]. now rewrite IH.
Qed.

(** The braces around a body are exactly what [strip_braces] removes. *)
Lemma strip_braces_wrapped (body : string) :
  strip_braces ("{" ++ body ++ "}") = body.
Proof.
  unfold strip_braces.
  change ("{" ++ body ++ "}") with (String "{" (body ++ "}")).
  assert (Hb : back (String "{" (body ++ "}")) = Some "}"%char)
    by apply (back_snoc (String "{" body) "}").
  rewrite Hb. cbn [front is_char Ascii.eqb andb].
  cbn -[substring Nat.sub]. rewrite length_snoc.
  replace (S (S (String.length body)) - 2)%nat with (String.length body) by lia.
  cbn [substring]. destruct (String.length body) eqn:E.
  - destruct body; [reflexivity | discriminate E].
  - rewrite <- E. apply substring_prefix.
Qed.

(** ** The classifier *)

Section Classifier.
Context `{Strtod}.

(** [analyzeTypeAndStructure] touches the type, the flags and the two
    structural views, nothing else. *)
Lemma analyze_keeps (r : EnhancedVariableInfo) :
  let r' := analyzeTypeAndStructure r in
  name r' = name r /\ value r' = value r
  /\ previousValue r' = previousValue r /\ scope r' = scope r
  /\ lastModifiedLine r' = lastModifiedLine r
  /\ accessCount r' = accessCount r /\ isEmpty r' = isEmpty r
  /\ valueHistory r' = valueHistory r.
Proof.
  destruct r as [n v pv ty sc ln ac rc ia il idc inu ie le ae de vh].
  unfold analyzeTypeAndStructure; cbn.
  destruct ie; [cbn; tauto|].
  destruct (isNumericValue v); [cbn; tauto|].
  destruct (isListValue v); [cbn; tauto|].
  destruct (isDictionaryValue v); cbn; tauto.
Qed.

(** The tag depends on the value and the emptiness flag only. *)
Lemma analyze_type (r : EnhancedVariableInfo) :
  isEmpty r = empty (value r) ->
  type (analyzeTypeAndStructure r) = classify (value r).
Proof.
  intros He. unfold classify, newVariable, analyzeTypeAndStructure; cbn.
  rewrite He.
  destruct (empty (value r)); [reflexivity|].
  destruct (isNumericValue (value r)); [reflexivity|].
  destruct (isListValue (value r)); [reflexivity|].
  destruct (isDictionaryValue (value r)); reflexivity.
Qed.

Lemma newVariable_fresh (n v s : string) :
  type (newVariable n v s) = classify v.
Proof. unfold newVariable. now rewrite analyze_type. Qed.

Lemma newVariable_value (n v s : string) : value (newVariable n v s) = v.
Proof. unfold newVariable. now rewrite (proj1 (proj2 (analyze_keeps _))). Qed.

Lemma updateValue_fresh (v : string) (l : Z) (r : EnhancedVariableInfo) :
  type (updateValue v l r) = classify v.
Proof. unfold updateValue. now rewrite analyze_type. Qed.

Lemma updateValue_value (v : string) (l : Z) (r : EnhancedVariableInfo) :
  value (updateValue v l r) = v.
Proof. unfold updateValue. now rewrite (proj1 (proj2 (analyze_keeps _))). Qed.

Lemma updateValue_accessCount (v : string) (l : Z) (r : EnhancedVariableInfo) :
  accessCount (updateValue v l r) = accessCount r + 1.
Proof.
  unfold updateValue.
  destruct (analyze_keeps
    (mkVar (name r) v (value r) (type r) (scope r) l (accessCount r + 1)
       (refCount r) (isArray r) (isList r) (isDictionary r) (isNumeric r)
       (empty v) (listElements r) (arrayElements r) (dictElements r)
       (if negb (bool_decide (valueHistory r = []))
           || negb (String.eqb (value r) v)
        then push_history (value r) (valueHistory r)
        else valueHistory r))) as (_ & _ & _ & _ & _ & Ha & _).
  exact Ha.
Qed.

Lemma updateValue_history (v : string) (l : Z) (r : EnhancedVariableInfo) :
  valueHistory (updateValue v l r) =
  if negb (bool_decide (valueHistory r = []))
     || negb (String.eqb (value r) v)
  then push_history (value r) (valueHistory r)
  else valueHistory r.
Proof.
  unfold updateValue.
  destruct (analyze_keeps
    (mkVar (name r) v (value r) (type r) (scope r) l (accessCount r + 1)
       (refCount r) (isArray r) (isList r) (isDictionary r) (isNumeric r)
       (empty v) (listElements r) (arrayElements r) (dictElements r)
       (if negb (bool_decide (valueHistory r = []))
           || negb (String.eqb (value r) v)
        then push_history (value r) (valueHistory r)
        else valueHistory r))) as (_ & _ & _ & _ & _ & _ & _ & Hh).
  exact Hh.
Qed.

Lemma newVariable_accessCount (n v s : string) :
  accessCount (newVariable n v s) = 0.
Proof.
  unfold newVariable.
  now destruct (analyze_keeps
    (mkVar n v "" "" s 0 0 1 false false false false (empty v) [] ∅ ∅ []))
    as (_ & _ & _ & _ & _ & Ha & _).
Qed.

Lemma newVariable_history (n v s : string) :
  valueHistory (newVariable n v s) = [].
Proof.
  unfold newVariable.
  now destruct (analyze_keeps
    (mkVar n v "" "" s 0 0 1 false false false false (empty v) [] ∅ ∅ []))
    as (_ & _ & _ & _ & _ & _ & _ & Hh).
Qed.

(** A braced value never passes the numeric test: [strtod] stops at the
    opening brace. *)
Lemma braced_not_numeric (body : string) :
  isNumericValue ("{" ++ body ++ "}") = false.
Proof. reflexivity. Qed.

(** [src/tcl_debugger.cpp] on a braced single word. *)
Lemma braced_word_classify (body : string) :
  length (words body) = 1%nat -> classify ("{" ++ body ++ "}") = "string".
Proof.
  intros Hw. unfold classify, newVariable, analyzeTypeAndStructure.
  cbn -[isNumericValue isListValue isDictionaryValue append].
  rewrite braced_not_numeric.
  assert (Hl : isListValue ("{" ++ body ++ "}") = false).
  { unfold isListValue. cbn [empty append].
    change (String "{" (body ++ "}")) with ("{" ++ body ++ "}").
    rewrite strip_braces_wrapped.
    destruct (words body) as [|w [|? ?]]; try discriminate Hw.
    reflexivity. }
  assert (Hd : isDictionaryValue ("{" ++ body ++ "}") = false).
  { unfold isDictionaryValue. cbn [empty append].
    change (String "{" (body ++ "}")) with ("{" ++ body ++ "}").
    rewrite strip_braces_wrapped.
    destruct (words body) as [|w [|? ?]]; try discriminate Hw.
    reflexivity. }
  rewrite Hl, Hd. reflexivity.
Qed.

(** [src/tcl_integrated_debugger.cpp] on a braced single word. *)
Lemma braced_word_classify_integrated (body : string) :
  length (words body) = 1%nat ->
  classify_integrated ("{" ++ body ++ "}") = "list".
Proof.
  intros Hw.
  unfold classify_integrated, Integrated.newVariable,
    Integrated.analyzeTypeAndStructure.
  cbn -[isNumericValue Integrated.isListValue Integrated.isDictionaryValue
        append].
  rewrite braced_not_numeric.
  assert (Hd : Integrated.isDictionaryValue ("{" ++ body ++ "}") = false).
  { unfold Integrated.isDictionaryValue. cbn [empty append].
    change (String "{" (body ++ "}")) with ("{" ++ body ++ "}").
    rewrite strip_braces_wrapped.
    destruct (words body) as [|w [|? ?]]; try discriminate Hw.
    reflexivity. }
  assert (Hl : Integrated.isListValue ("{" ++ body ++ "}") = true).
  { unfold Integrated.isListValue. rewrite Hd.
    change ("{" ++ body ++ "}") with (String "{" (body ++ "}")).
    assert (Hb : back (String "{" (body ++ "}")) = Some "}"%char)
      by apply (back_snoc (String "{" body) "}").
    rewrite Hb. reflexivity. }
  rewrite Hd, Hl. reflexivity.
Qed.

End Classifier.

(** ** The variable tracker *)

Section Tracker.
Context `{Strtod}.
Implicit Types (t : MemoryAwareVariableTracker) (r : EnhancedVariableInfo).
Implicit Types (n v s : string) (l : Z).

Lemma last_alter_back f (stack : list (gmap string EnhancedVariableInfo)) :
  last (alter_back f stack) = f <$> last stack.
Proof.
  unfold alter_back. rewrite !last_lookup, length_alter.
  apply list_lookup_alter_eq.
Qed.

Lemma get_lookup n t :
  get n t = match local_lookup n t with
            | Some r => Some r
            | None => globalVariables t !! n
            end.
Proof.
  unfold get, getVariableInfo, local_lookup.
  destruct (last (scopeStack t) ≫= _); [reflexivity|].
  now destruct (globalVariables t !! n).
Qed.

Lemma local_lookup_pushScope n t : local_lookup n (pushScope t) = None.
Proof.
  unfold local_lookup, pushScope; cbn. rewrite last_snoc; cbn.
  apply lookup_empty.
Qed.

Lemma popScope_pushScope t : popScope (pushScope t) = t.
Proof.
  unfold popScope, pushScope; cbn.
  destruct (scopeStack t ++ [∅])%list eqn:E.
  - now apply app_nil in E as [_ ?].
  - rewrite <- E, removelast_last. now destruct t.
Qed.

(** The three ways [addVariable] changes the tracker. *)
Lemma addVariable_local n v s l t r :
  local_lookup n t = Some r ->
  (addVariable n v s l t).1 =
  set_scopeStack (alter_back (alter (updateValue v l) n) (scopeStack t)) t.
Proof.
  unfold local_lookup, addVariable, getVariableInfo. now intros ->.
Qed.

Lemma addVariable_global n v s l t r :
  local_lookup n t = None -> globalVariables t !! n = Some r ->
  (addVariable n v s l t).1 =
  set_globalVariables (alter (updateValue v l) n (globalVariables t)) t.
Proof.
  unfold local_lookup, addVariable, getVariableInfo. now intros -> ->.
Qed.

Lemma addVariable_absent n v s l t :
  get n t = None ->
  (addVariable n v s l t).1 =
  let var := set_lastModifiedLine l (newVariable n v s) in
  if String.eqb s "global"
  then set_globalVariables (<[n := var]> (globalVariables t)) t
  else if negb (bool_decide (scopeStack t = []))
  then set_scopeStack (alter_back (<[n := var]>) (scopeStack t)) t
  else t.
Proof.
  unfold get, addVariable. now destruct (getVariableInfo n t).
Qed.

(** A [set] on a name that resolves updates the record it resolves to. *)
Lemma get_addVariable_existing n v s l t r :
  get n t = Some r ->
  get n (addVariable n v s l t).1 = Some (updateValue v l r).
Proof.
  rewrite get_lookup. intros Hg. rewrite get_lookup.
  destruct (local_lookup n t) as [r'|] eqn:Hl.
  - injection Hg as ->. rewrite (addVariable_local _ _ _ _ _ _ Hl).
    unfold local_lookup in *; cbn. rewrite last_alter_back.
    destruct (last (scopeStack t)) as [frame|]; [|discriminate Hl].
    cbn in *. now rewrite lookup_alter_eq, Hl.
  - rewrite (addVariable_global _ _ _ _ _ _ Hl Hg).
    unfold local_lookup in *; cbn. rewrite Hl.
    now rewrite lookup_alter_eq, Hg.
Qed.

(** A [set] on a name that does not resolve creates the record, in the
    global map or, for another scope, in the top frame if there is one. *)
Lemma get_addVariable_created n v s l t :
  get n t = None -> s = "global" \/ scopeStack t <> [] ->
  get n (addVariable n v s l t).1 =
  Some (set_lastModifiedLine l (newVariable n v s)).
Proof.
  intros Hg Hs. rewrite (addVariable_absent _ _ _ _ _ Hg). cbn zeta.
  rewrite get_lookup in Hg.
  destruct (local_lookup n t) eqn:Hl; [discriminate Hg|].
  rewrite get_lookup.
  destruct (String.eqb s "global") eqn:Es.
  - unfold local_lookup in *; cbn. rewrite Hl. apply lookup_insert_eq.
  - destruct Hs as [->|Hs]; [discriminate Es|].
    case_bool_decide; [contradiction|]. cbn.
    unfold local_lookup; cbn. rewrite last_alter_back.
    destruct (last (scopeStack t)) as [frame|] eqn:El.
    + cbn. now rewrite lookup_insert_eq.
    + now apply last_None in El.
Qed.

(** After a [set] with global scope on a name the top frame does not
    hold, the name is global and the top frame still does not hold it. *)
Lemma addVariable_global_scope n v l t :
  local_lookup n t = None ->
  let t1 := (addVariable n v "global" l t).1 in
  scopeStack t1 = scopeStack t
  /\ exists r, globalVariables t1 !! n = Some r /\ value r = v.
Proof.
  intros Hl. cbn zeta.
  destruct (globalVariables t !! n) as [r|] eqn:Hg.
  - rewrite (addVariable_global _ _ _ _ _ _ Hl Hg). cbn. split; [reflexivity|].
    exists (updateValue v l r).
    now rewrite lookup_alter_eq, Hg, updateValue_value.
  - rewrite addVariable_absent by now rewrite get_lookup, Hl.
    cbn. split; [reflexivity|].
    exists (set_lastModifiedLine l (newVariable n v "global")).
    rewrite lookup_insert_eq. split; [reflexivity|].
    cbn. apply newVariable_value.
Qed.

(** What the scenario of the scope-shadowing property does on the code:
    the second [set] finds the global record and updates it. *)
Lemma local_set_updates_global n g v s l1 l2 t :
  local_lookup n t = None ->
  let t3 := (addVariable n v s l2
               (pushScope (addVariable n g "global" l1 t).1)).1 in
  value <$> get n t3 = Some v
  /\ value <$> get n (popScope t3) = Some v
  /\ local_lookup n t3 = None.
Proof.
  intros Hl. cbn zeta.
  destruct (addVariable_global_scope n g l1 t Hl) as (Hst & r1 & Hg1 & _).
  set (t1 := (addVariable n g "global" l1 t).1) in *. clearbody t1.
  assert (Hl2 : local_lookup n (pushScope t1) = None)
    by apply local_lookup_pushScope.
  rewrite (addVariable_global n v s l2 (pushScope t1) r1 Hl2 Hg1).
  set (g3 := alter (updateValue v l2) n (globalVariables (pushScope t1))).
  assert (Hg3 : g3 !! n = Some (updateValue v l2 r1)).
  { unfold g3. cbn. now rewrite lookup_alter_eq, Hg1. }
  assert (Hl3 : local_lookup n (set_globalVariables g3 (pushScope t1)) = None)
    by exact Hl2.
  split; [|split]; [| |exact Hl3].
  - rewrite get_lookup, Hl3. cbn. rewrite Hg3. cbn.
    now rewrite updateValue_value.
  - rewrite get_lookup.
    assert (Hpop : popScope (set_globalVariables g3 (pushScope t1))
                   = set_globalVariables g3 t1).
    { unfold popScope, pushScope; cbn.
      destruct (scopeStack t1 ++ [∅])%list eqn:E.
      - now apply app_nil in E as [_ ?].
      - now rewrite <- E, removelast_last. }
    rewrite Hpop.
    assert (Hl1 : local_lookup n (set_globalVariables g3 t1) = None).
    { unfold local_lookup in *; cbn. now rewrite Hst. }
    rewrite Hl1. cbn. rewrite Hg3. cbn. now rewrite updateValue_value.
Qed.

End Tracker.

(** ** Access counts, the history, and the freshness of the type tag *)

Section Records.
Context `{Strtod}.
Implicit Types (t : MemoryAwareVariableTracker) (r : EnhancedVariableInfo).

Lemma set_all_cons n v s l (calls : list (string * string * Z)) t :
  set_all n ((v, s, l) :: calls) t
  = set_all n calls (addVariable n v s l t).1.
Proof. reflexivity. Qed.

Lemma update_all_cons v l (updates : list (string * Z)) r :
  update_all ((v, l) :: updates) r = update_all updates (updateValue v l r).
Proof. reflexivity. Qed.

Lemma set_all_accessCount n (calls : list (string * string * Z)) t r :
  get n t = Some r ->
  accessCount <$> get n (set_all n calls t)
  = Some (accessCount r + Z.of_nat (length calls)).
Proof.
  revert t r. induction calls as [|[[v s] l] calls IH]; intros t r Hg.
  - cbn. rewrite Hg. cbn. f_equal. lia.
  - rewrite set_all_cons.
    apply (get_addVariable_existing n v s l) in Hg.
    rewrite (IH _ _ Hg), updateValue_accessCount.
    f_equal. cbn [length]. lia.
Qed.

(** *** The bounded history *)

Lemma push_history_last_n (x : string) (P : list string) :
  push_history x (last_n 10 P) = last_n 10 (P ++ [x])%list.
Proof.
  unfold push_history, last_n.
  rewrite !length_app, length_drop. cbn [length].
  destruct (decide (10 <= length P)%nat) as [Hle|Hlt].
  - replace (10 <? _)%nat with true by (symmetry; apply Nat.ltb_lt; lia).
    destruct (lookup_lt_is_Some_2 P (length P - 10)%nat) as [y Hy]; [lia|].
    rewrite (drop_S _ _ _ Hy). cbn [tail app].
    replace (length P + 1 - 10)%nat with (S (length P - 10)) by lia.
    now rewrite drop_app_le by lia.
  - replace (10 <? _)%nat with false by (symmetry; apply Nat.ltb_ge; lia).
    replace (length P - 10)%nat with 0%nat by lia.
    replace (length P + 1 - 10)%nat with 0%nat by lia.
    reflexivity.
Qed.

Lemma last_n_nonempty {A} (k : nat) (P : list A) :
  (0 < k)%nat -> P <> [] -> last_n k P <> [].
Proof.
  intros Hk HP E. apply (f_equal length) in E.
  unfold last_n in E. rewrite length_drop in E. cbn in E.
  destruct P; [contradiction|cbn in E; lia].
Qed.

(** Once the history is non-empty every update records the value it
    replaces, and the ten most recent stay. *)
Lemma update_all_history (updates : list (string * Z)) r (P : list string) :
  P <> [] -> valueHistory r = last_n 10 P ->
  valueHistory (update_all updates r)
  = last_n 10 (P ++ removelast (value r :: updates.*1))%list.
Proof.
  revert r P. induction updates as [|[v l] updates IH]; intros r P HP Hh.
  - cbn. now rewrite app_nil_r.
  - rewrite update_all_cons.
    assert (Hh' : valueHistory (updateValue v l r)
                  = last_n 10 (P ++ [value r])%list).
    { rewrite updateValue_history, Hh.
      rewrite bool_decide_eq_false_2 by (apply last_n_nonempty; [lia|done]).
      cbn [negb orb]. apply push_history_last_n. }
    assert (HP' : (P ++ [value r])%list <> []) by (destruct P; discriminate).
    rewrite (IH _ _ HP' Hh'), updateValue_value.
    rewrite <- app_assoc. do 2 f_equal.
Qed.

Lemma history_after_updates n v0 s (updates : list (string * Z)) :
  NoDup updates.*1 -> (11 <= length updates)%nat ->
  valueHistory (update_all updates (newVariable n v0 s))
  = last_n 10 (v0 :: removelast updates.*1).
Proof.
  intros Hnd Hlen.
  destruct updates as [|[v1 l1] updates]; [simpl in Hlen; lia|].
  rewrite update_all_cons.
  assert (Hh1 : valueHistory (updateValue v1 l1 (newVariable n v0 s))
                = if String.eqb v0 v1 then [] else [v0]).
  { rewrite updateValue_history, newVariable_history, newVariable_value.
    now destruct (String.eqb v0 v1). }
  assert (HP : [v0] <> []) by discriminate.
  destruct (String.eqb v0 v1) eqn:E01.
  - (* the first update repeats the value: nothing is recorded yet *)
    apply String.eqb_eq in E01 as <-.
    destruct updates as [|[v2 l2] updates]; [simpl in Hlen; lia|].
    rewrite update_all_cons.
    assert (Hne : String.eqb v0 v2 = false).
    { apply String.eqb_neq. intros ->.
      change (NoDup (v2 :: v2 :: updates.*1)) in Hnd.
      apply NoDup_cons in Hnd as [Hin _]. apply Hin. now left. }
    assert (Hh2 : valueHistory (updateValue v2 l2
                     (updateValue v0 l1 (newVariable n v0 s)))
                  = last_n 10 [v0]).
    { rewrite updateValue_history, Hh1, updateValue_value, Hne.
      reflexivity. }
    rewrite (update_all_history _ _ [v0] HP Hh2), updateValue_value.
    change (((v0, l1) :: (v2, l2) :: updates).*1)
      with (v0 :: v2 :: updates.*1).
    change (removelast (v0 :: v2 :: updates.*1))
      with (v0 :: removelast (v2 :: updates.*1)).
    change ([v0] ++ removelast (v2 :: updates.*1))%list
      with (v0 :: removelast (v2 :: updates.*1)).
    set (L := v0 :: removelast (v2 :: updates.*1)).
    assert (HL : length L = S (length updates)).
    { unfold L. cbn [length].
      rewrite removelast_firstn_len, length_take. cbn [length].
      rewrite length_fmap. lia. }
    clearbody L. unfold last_n. cbn [length]. rewrite HL.
    simpl in Hlen.
    replace (S (S (length updates)) - 10)%nat
      with (S (S (length updates) - 10)) by lia.
    reflexivity.
  - assert (Hh1' : valueHistory (updateValue v1 l1 (newVariable n v0 s))
                   = last_n 10 [v0]) by exact Hh1.
    rewrite (update_all_history _ _ [v0] HP Hh1'), updateValue_value.
    reflexivity.
Qed.

Lemma last_n_length {A} (k : nat) (l : list A) :
  (k <= length l)%nat -> length (last_n k l) = k.
Proof. intros Hk. unfold last_n. rewrite length_drop. lia. Qed.

(** *** Freshness of the tag, as an invariant of the tracker *)

Lemma map_Forall_alter_fresh f n (m : gmap string EnhancedVariableInfo) :
  (forall r, fresh (f r)) ->
  map_Forall (fun _ r => fresh r) m ->
  map_Forall (fun _ r => fresh r) (alter f n m).
Proof.
  intros Hf Hm k x Hk. destruct (decide (n = k)) as [->|Hne].
  - rewrite lookup_alter_eq in Hk.
    destruct (m !! k); [|discriminate Hk].
    injection Hk as <-. apply Hf.
  - rewrite lookup_alter_ne in Hk by done. exact (Hm k x Hk).
Qed.

Lemma Forall_removelast {A} (P : A -> Prop) (l : list A) :
  Forall P l -> Forall P (removelast l).
Proof. rewrite removelast_firstn_len. apply Forall_take. Qed.

Lemma fresh_created n v s l : fresh (set_lastModifiedLine l (newVariable n v s)).
Proof.
  unfold fresh.
  change (type (set_lastModifiedLine l ?r)) with (type r).
  change (value (set_lastModifiedLine l ?r)) with (value r).
  now rewrite newVariable_fresh, newVariable_value.
Qed.

Lemma fresh_updated v l r : fresh (updateValue v l r).
Proof. unfold fresh. now rewrite updateValue_fresh, updateValue_value. Qed.

Lemma addVariable_all_fresh n v s l t :
  all_fresh t -> all_fresh (addVariable n v s l t).1.
Proof.
  intros [Hg Hs]. unfold addVariable.
  destruct (getVariableInfo n t) as [[[] r]|]; cbn.
  - split; [exact Hg|]. unfold alter_back.
    apply Forall_alter; [exact Hs|]. intros frame _ Hf.
    apply map_Forall_alter_fresh; [apply fresh_updated | exact Hf].
  - split; [|exact Hs].
    apply map_Forall_alter_fresh; [apply fresh_updated | exact Hg].
  - destruct (String.eqb s "global"); cbn.
    + split; [|exact Hs].
      apply map_Forall_insert_2; [apply fresh_created | exact Hg].
    + case_bool_decide; cbn; [now split|].
      split; [exact Hg|]. unfold alter_back.
      apply Forall_alter; [exact Hs|]. intros frame _ Hf.
      apply map_Forall_insert_2; [apply fresh_created | exact Hf].
Qed.

Lemma reachable_all_fresh t : reachable t -> all_fresh t.
Proof.
  induction 1 as [|n v s l t _ IH|t _ IH|t _ IH|t _ IH|b t _ IH
                  |x t _ IH|x t _ IH].
  - split; [apply map_Forall_empty | constructor].
  - now apply addVariable_all_fresh.
  - destruct IH as [Hg Hs]. split; [exact Hg|]. cbn.
    apply Forall_app. split; [exact Hs|].
    constructor; [apply map_Forall_empty | constructor].
  - unfold popScope. destruct (scopeStack t) as [|f fs] eqn:E; [exact IH|].
    destruct IH as [Hg Hs]. split; [exact Hg|].
    change (Forall (map_Forall (fun _ r => fresh r)) (removelast (f :: fs))).
    rewrite <- E. now apply Forall_removelast.
  - exact IH.
  - exact IH.
  - exact IH.
  - exact IH.
Qed.

End Records.

(** ** The breakpoint registry *)

Section Breakpoints.
Implicit Types (m : BreakpointMap) (bp : EnhancedBreakpoint) (k : Z).

Lemma map_find_assign_eq k bp m : map_find k (map_assign k bp m) = Some bp.
Proof.
  induction m as [|[k' bp'] m IH]; cbn.
  - now rewrite Z.eqb_refl.
  - destruct (k <? k') eqn:Elt; cbn; [now rewrite Z.eqb_refl|].
    destruct (k =? k') eqn:Eeq; cbn; [now rewrite Z.eqb_refl|].
    rewrite Z.eqb_sym, Eeq. exact IH.
Qed.

Lemma map_find_assign_ne k k0 bp m :
  k <> k0 -> map_find k0 (map_assign k bp m) = map_find k0 m.
Proof.
  intros Hne. induction m as [|[k' bp'] m IH]; cbn.
  - now apply Z.eqb_neq in Hne as ->.
  - destruct (k <? k') eqn:Elt; cbn.
    + now apply Z.eqb_neq in Hne as ->.
    + destruct (k =? k') eqn:Eeq; cbn.
      * apply Z.eqb_eq in Eeq as <-.
        now apply Z.eqb_neq in Hne as ->.
      * now rewrite IH.
Qed.

(** Assigning twice under one key keeps the second value only. *)
Lemma map_assign_assign k bp1 bp2 m :
  map_assign k bp2 (map_assign k bp1 m) = map_assign k bp2 m.
Proof.
  induction m as [|[k' bp'] m IH]; cbn.
  - now rewrite Z.ltb_irrefl, Z.eqb_refl.
  - destruct (k <? k') eqn:Elt; cbn.
    + now rewrite Z.ltb_irrefl, Z.eqb_refl.
    + destruct (k =? k') eqn:Eeq; cbn.
      * now rewrite Z.ltb_irrefl, Z.eqb_refl.
      * now rewrite Elt, Eeq, IH.
Qed.

Lemma map_find_modify f k m :
  map_find k (map_modify f k m) = f <$> map_find k m.
Proof.
  induction m as [|[k' bp'] m IH]; cbn; [reflexivity|].
  destruct (k' =? k) eqn:E; cbn; now rewrite E.
Qed.

(** The watch loop answers [false] when no entry watches the variable,
    and leaves the map as it was. *)
Lemma watch_loop_none varName oldValue newValue m :
  List.filter (watches varName) m = [] ->
  watch_loop varName oldValue newValue m = (false, m).
Proof.
  induction m as [|[l bp] m IH]; cbn; [reflexivity|].
  unfold watches at 1; cbn.
  destruct (enabled bp && String.eqb (watchVariable bp) varName);
    [discriminate|].
  intros Hf. now rewrite (IH Hf).
Qed.

(** With one entry watching the variable, the answer is the one its
    condition gives. *)
Lemma watch_loop_single varName oldValue newValue m l bp :
  List.filter (watches varName) m = [(l, bp)] ->
  (watch_loop varName oldValue newValue m).1
  = watch_returns_true (hit bp) oldValue newValue.
Proof.
  induction m as [|[l' bp'] m IH]; cbn; [discriminate|].
  unfold watches at 1; cbn.
  destruct (enabled bp' && String.eqb (watchVariable bp') varName).
  - intros Hf. injection Hf as -> -> Hf.
    destruct (watch_returns_true (hit bp) oldValue newValue) eqn:E;
      [reflexivity|].
    now rewrite (watch_loop_none _ _ _ _ Hf).
  - intros Hf. specialize (IH Hf).
    now destruct (watch_loop varName oldValue newValue m).
Qed.

Lemma watch_changed bp oldValue newValue :
  memoryCondition bp = "changed" ->
  watch_returns_true (hit bp) oldValue newValue
  = negb (String.eqb oldValue newValue).
Proof.
  unfold watch_returns_true; cbn. intros ->; cbn.
  now destruct (String.eqb oldValue newValue).
Qed.

Lemma watch_equals_100 bp oldValue newValue :
  memoryCondition bp = "=100" ->
  watch_returns_true (hit bp) oldValue newValue = String.eqb newValue "100".
Proof. unfold watch_returns_true; cbn. now intros ->. Qed.

End Breakpoints.

(** * The claims of the specification *)

Section Claims.
Context `{Strtod}.

(** C1 (as the code has it).  A global [x] is set to [g]; after
    [pushScope], [x] is set again with another scope and value [v].
    The second [set] resolves [x] to the global record and updates it in
    place: [get x] gives [v] while the scope is pushed and still gives
    [v] after [popScope], and the pushed frame never holds a record for
    [x].  It holds from every tracker whose top frame does not already
    hold [x]. *)
Theorem local_set_resolves_to_global
    (t : MemoryAwareVariableTracker) (x g v s : string) (l1 l2 : Z) :
  local_lookup x t = None ->
  let t3 := (addVariable x v s l2
               (pushScope (addVariable x g "global" l1 t).1)).1 in
  value <$> get x t3 = Some v
  /\ value <$> get x (popScope t3) = Some v
  /\ local_lookup x t3 = None.
Proof. apply local_set_updates_global. Qed.

(** C2 (as the code has it).  On a line holding an enabled breakpoint
    the line-hit check [hasBreakpoint] answers [true] and leaves the
    registry, hit counts included, exactly as it was; a separate
    [hitBreakpoint] call on the line raises the count of its breakpoint
    by one.  The count is an [int]: the increment is stated for a count
    below [INT_MAX]. *)
Theorem line_check_leaves_hitCount
    (m : EnhancedBreakpointManager) (L : Z) (bp : EnhancedBreakpoint) :
  map_find L (breakpoints m) = Some bp -> enabled bp = true ->
  hasBreakpoint L m = (true, m)
  /\ (hitCount bp < INT_MAX ->
      hitCount <$> map_find L (breakpoints (hitBreakpoint L m))
      = Some (hitCount bp + 1)).
Proof.
  intros Hf He. unfold hasBreakpoint, hitBreakpoint. rewrite Hf, He.
  split; [reflexivity|]. intros _. cbn. now rewrite map_find_modify, Hf.
Qed.

(** C3 (as the code has it).  Watch breakpoints live in the map of line
    breakpoints under the line key they are added with: two watches
    added under different keys are both found afterwards, under one key
    the second replaces the first; and the console adds every watch
    under key 0, so a second [setVariableBreakpoint] leaves the registry
    as if the first had not happened. *)
Theorem watch_breakpoints_keyed_by_line
    (m : EnhancedBreakpointManager) (la lb : Z) (a b ca cb : string) :
  setVariableBreakpoint b (setVariableBreakpoint a m)
  = setVariableBreakpoint b m
  /\ let m' := addVariableWatchBreakpoint lb b cb
                 (addVariableWatchBreakpoint la a ca m) in
     if la =? lb
     then m' = addVariableWatchBreakpoint lb b cb m
     else watchVariable <$> map_find la (breakpoints m') = Some a
          /\ watchVariable <$> map_find lb (breakpoints m') = Some b.
Proof.
  split.
  - unfold setVariableBreakpoint, addVariableWatchBreakpoint; cbn.
    now rewrite map_assign_assign.
  - cbn zeta. destruct (la =? lb) eqn:E.
    + apply Z.eqb_eq in E as ->.
      unfold addVariableWatchBreakpoint; cbn.
      now rewrite map_assign_assign.
    + apply Z.eqb_neq in E.
      unfold addVariableWatchBreakpoint; cbn. split.
      * rewrite map_find_assign_ne by congruence.
        now rewrite map_find_assign_eq.
      * now rewrite map_find_assign_eq.
Qed.

(** C4.  With exactly one enabled breakpoint watching the variable, a
    change event makes [checkVariableWatchBreakpoint] answer [true]
    exactly when the old and new values differ, for the condition
    ["changed"]; and exactly when the new value is ["100"], whatever the
    old one, for the condition ["=100"]. *)
Theorem watch_condition_semantics
    (m : EnhancedBreakpointManager) (l : Z) (bp : EnhancedBreakpoint)
    (varName oldValue newValue : string) :
  List.filter (watches varName) (breakpoints m) = [(l, bp)] ->
  (memoryCondition bp = "changed" ->
   (checkVariableWatchBreakpoint varName oldValue newValue m).1 = true
   <-> oldValue <> newValue)
  /\ (memoryCondition bp = "=100" ->
      (checkVariableWatchBreakpoint varName oldValue newValue m).1 = true
      <-> newValue = "100").
Proof.
  intros Hf.
  assert (Hr : (checkVariableWatchBreakpoint varName oldValue newValue m).1
               = watch_returns_true (hit bp) oldValue newValue).
  { unfold checkVariableWatchBreakpoint.
    rewrite <- (watch_loop_single _ oldValue newValue _ _ _ Hf).
    now destruct (watch_loop varName oldValue newValue (breakpoints m)). }
  rewrite Hr. split; intros Hc.
  - rewrite (watch_changed _ _ _ Hc), negb_true_iff. apply String.eqb_neq.
  - rewrite (watch_equals_100 _ _ _ Hc). apply String.eqb_eq.
Qed.

(** C5.  A variable updated at least eleven times after its creation,
    with pairwise distinct values, has a history of exactly ten entries:
    the ten values it held most recently before the current one, the
    most recent last. *)
Theorem history_bound (n v0 s : string) (updates : list (string * Z)) :
  NoDup updates.*1 -> (11 <= length updates)%nat ->
  let r := update_all updates (newVariable n v0 s) in
  length (valueHistory r) = 10%nat
  /\ valueHistory r = last_n 10 (v0 :: removelast updates.*1).
Proof.
  intros Hnd Hlen. cbn zeta.
  rewrite (history_after_updates _ _ _ _ Hnd Hlen). split; [|reflexivity].
  apply last_n_length. cbn [length].
  rewrite removelast_firstn_len, length_take, length_fmap. lia.
Qed.

(** C6 (as the code has it).  A brace-wrapped single token is never
    classified [integer] or [float]: the numeric test reads the raw
    value, braces included, and [strtod] converts nothing at the opening
    brace, whatever the unwrapped content is; the value then fails the
    list and the dictionary test (one word) and is a [string]. *)
Theorem braced_single_token_is_string (body : string) :
  length (words body) = 1%nat ->
  isNumericValue ("{" ++ body ++ "}") = false
  /\ classify ("{" ++ body ++ "}") = "string".
Proof.
  intros Hw. split; [apply braced_not_numeric | now apply braced_word_classify].
Qed.

(** C7 (as the code has it).  Creation does not count as an access: a
    record starts with [accessCount] 0 and every later [set] on the name
    adds one, so after the [set] that creates a variable the count is 0
    and after [k] sets in all (the creation and [calls]) it is [k - 1].
    The count is an [int]; the statement stays within its range. *)
Theorem accessCount_counts_updates
    (t : MemoryAwareVariableTracker) (n v0 s0 : string) (l0 : Z)
    (calls : list (string * string * Z)) :
  get n t = None -> s0 = "global" \/ scopeStack t <> [] ->
  Z.of_nat (length calls) <= INT_MAX ->
  let t1 := (addVariable n v0 s0 l0 t).1 in
  accessCount <$> get n t1 = Some 0
  /\ accessCount <$> get n (set_all n calls t1)
     = Some (Z.of_nat (1 + length calls) - 1).
Proof.
  intros Hg Hs _. cbn zeta.
  pose proof (get_addVariable_created n v0 s0 l0 t Hg Hs) as H1.
  split.
  - rewrite H1. cbn. f_equal. apply newVariable_accessCount.
  - rewrite (set_all_accessCount _ _ _ _ H1).
    change (accessCount (set_lastModifiedLine l0 ?r)) with (accessCount r).
    rewrite newVariable_accessCount. f_equal. lia.
Qed.

(** C8.  In every state the tracker can reach, every stored record
    carries the tag the classifier gives its current value. *)
Theorem type_is_fresh
    (t : MemoryAwareVariableTracker) (n : string) (r : EnhancedVariableInfo) :
  reachable t -> stored t n r -> type r = classify (value r).
Proof.
  intros Hr Hst. destruct (reachable_all_fresh t Hr) as [Hg Hs].
  destruct Hst as [Hst|(frame & Hin & Hst)].
  - exact (Hg n r Hst).
  - rewrite Forall_forall in Hs. exact (Hs frame Hin n r Hst).
Qed.

(** C9.  The classifiers of the two source files are not the same
    function: there is a value, a brace-wrapped single word that is not
    a number, to which they give different tags. *)
Theorem classifiers_differ :
  exists raw, classify raw <> classify_integrated raw.
Proof.
  exists ("{" ++ "abc" ++ "}").
  rewrite braced_word_classify, braced_word_classify_integrated by reflexivity.
  discriminate.
Qed.

(** C10.  With no frame on the stack, a [set] with a scope other than
    global on a name that is defined nowhere stores nothing: the tracker
    is unchanged and a later [get] finds nothing; the installed change
    callback is still called, once, with the old value [""] and the new
    value. *)
Theorem local_set_without_frame_is_dropped
    (t : MemoryAwareVariableTracker) (n v s : string) (l : Z) :
  scopeStack t = [] -> s <> "global" -> get n t = None ->
  variableChangeCallback t = true ->
  addVariable n v s l t = (t, [mkEvent n "" v])
  /\ get n (addVariable n v s l t).1 = None.
Proof.
  intros Hst Hs Hg Hcb.
  assert (Ha : addVariable n v s l t = (t, [mkEvent n "" v])).
  { unfold addVariable. unfold get in Hg.
    destruct (getVariableInfo n t); [discriminate Hg|].
    apply String.eqb_neq in Hs. rewrite Hs, Hst, Hcb. reflexivity. }
  split; [exact Ha|]. now rewrite Ha.
Qed.

End Claims.

(** * The scenarios of the specification, run on the code

    Closed instances of the theorems above, and the runs on which the code
    departs from the specification's wording.  They are computed with a C
    library that reports no range error ([strtod_in_range]); none of the
    values involved is a numeric literal near the limits of [double]. *)

Section Scenarios.
#[local] Existing Instance strtod_in_range.

(** C1, instance: from the empty tracker, [x] global ["g"], then local
    ["l"] in a pushed scope. *)
Lemma local_set_resolves_to_global_witness :
  local_lookup "x" newTracker = None
  /\ let t3 := (addVariable "x" "l" "local" 31
                  (pushScope (addVariable "x" "g" "global" 10 newTracker).1)).1 in
     value <$> get "x" t3 = Some "l"
     /\ value <$> get "x" (popScope t3) = Some "l"
     /\ local_lookup "x" t3 = None.
Proof.
  split; [reflexivity|].
  apply (local_set_resolves_to_global newTracker "x" "g" "l" "local" 10 31).
  reflexivity.
Defined.

(** C1, the run that contradicts the specification: after [popScope],
    [get "x"] gives ["l"], not ["g"]. *)
Lemma scope_shadowing_fails :
  let t3 := (addVariable "x" "l" "local" 31
               (pushScope (addVariable "x" "g" "global" 10 newTracker).1)).1 in
  value <$> get "x" (popScope t3) = Some "l"
  /\ value <$> get "x" (popScope t3) <> Some "g".
Proof. vm_compute. split; [reflexivity | discriminate]. Qed.

(** C2, instance: the breakpoint the console sets at line 20. *)
Lemma line_check_leaves_hitCount_witness :
  let m := setBreakpoint "demo.tcl" 20 (mkManager []) in
  hasBreakpoint 20 m = (true, m)
  /\ hitCount <$> map_find 20 (breakpoints (hitBreakpoint 20 m)) = Some 1.
Proof.
  destruct (line_check_leaves_hitCount
              (setBreakpoint "demo.tcl" 20 (mkManager [])) 20
              (newBreakpoint 20 "demo.tcl" "") eq_refl eq_refl) as [Hc Hh].
  split; [exact Hc | apply Hh; reflexivity].
Defined.

(** C2, the run that contradicts the specification: a breakpoint at
    line 20 checked twice answers [true] twice and has [hitCount] 0,
    not 2. *)
Lemma line_check_twice_counts_nothing :
  let m1 := setBreakpoint "demo.tcl" 20 (mkManager []) in
  let c1 := hasBreakpoint 20 m1 in
  let c2 := hasBreakpoint 20 c1.2 in
  c1.1 = true /\ c2.1 = true
  /\ hitCount <$> map_find 20 (breakpoints c2.2) = Some 0
  /\ hitCount <$> map_find 20 (breakpoints c2.2) <> Some 2.
Proof. vm_compute. repeat split; discriminate. Qed.

(** C3, the run that contradicts the specification: after the console
    adds a watch on [a] and then one on [b], the registry holds one
    breakpoint, and none that watches [a]. *)
Lemma console_second_watch_replaces_first :
  let m := setVariableBreakpoint "b"
             (setVariableBreakpoint "a" (mkManager [])) in
  length (breakpoints m) = 1%nat
  /\ List.filter (watches "a") (breakpoints m) = []
  /\ List.filter (watches "b") (breakpoints m)
     = [(0, mkBreakpoint 0 "" "" true 0 "b" "")].
Proof. vm_compute. repeat split. Qed.

(** C4, instance: one watch on [counter], next to a line breakpoint;
    once with the condition ["changed"], once with ["=100"]. *)
Lemma watch_condition_semantics_witness :
  let line20 := setBreakpoint "demo.tcl" 20 (mkManager []) in
  let m1 := addVariableWatchBreakpoint 0 "counter" "changed" line20 in
  let m2 := addVariableWatchBreakpoint 0 "counter" "=100" line20 in
  ((checkVariableWatchBreakpoint "counter" "42" "43" m1).1 = true
   <-> "42" <> "43")
  /\ ((checkVariableWatchBreakpoint "counter" "42" "100" m2).1 = true
      <-> "100" = "100").
Proof.
  split.
  - apply (proj1 (watch_condition_semantics
             (addVariableWatchBreakpoint 0 "counter" "changed"
                (setBreakpoint "demo.tcl" 20 (mkManager [])))
             0 (mkBreakpoint 0 "" "changed" true 0 "counter" "changed")
             "counter" "42" "43" eq_refl)).
    reflexivity.
  - apply (proj2 (watch_condition_semantics
             (addVariableWatchBreakpoint 0 "counter" "=100"
                (setBreakpoint "demo.tcl" 20 (mkManager [])))
             0 (mkBreakpoint 0 "" "=100" true 0 "counter" "=100")
             "counter" "42" "100" eq_refl)).
    reflexivity.
Defined.

(** C5, instance: twelve updates ["b"] ... ["m"] of a variable created
    with ["a"]; the history is ["c"] ... ["l"], the ten values held before
    the current ["m"]. *)
Lemma history_bound_witness :
  let updates := [("b", 1); ("c", 2); ("d", 3); ("e", 4); ("f", 5); ("g", 6);
                  ("h", 7); ("i", 8); ("j", 9); ("k", 10); ("l", 11);
                  ("m", 12)] in
  let r := update_all updates (newVariable "v" "a" "global") in
  length (valueHistory r) = 10%nat
  /\ valueHistory r = ["c"; "d"; "e"; "f"; "g"; "h"; "i"; "j"; "k"; "l"].
Proof.
  apply (history_bound "v" "a" "global"
           [("b", 1); ("c", 2); ("d", 3); ("e", 4); ("f", 5); ("g", 6);
            ("h", 7); ("i", 8); ("j", 9); ("k", 10); ("l", 11); ("m", 12)]).
  - apply (bool_decide_unpack _). vm_compute. exact I.
  - vm_compute. repeat constructor.
Defined.

(** C6, instance: the token [42] in braces. *)
Lemma braced_single_token_is_string_witness :
  length (words "42") = 1%nat
  /\ isNumericValue "{42}" = false /\ classify "{42}" = "string".
Proof.
  split; [reflexivity|].
  apply (braced_single_token_is_string "42"). reflexivity.
Defined.

(** C6, the run that contradicts the specification: ["{42}"] is a
    [string], although its unwrapped content [42] is numeric and alone
    is an [integer]. *)
Lemma braced_42_is_not_integer :
  classify "{42}" = "string" /\ classify "{42}" <> "integer"
  /\ isNumericValue "42" = true /\ classify "42" = "integer".
Proof. vm_compute. repeat split; discriminate. Qed.

(** C7, instance: [counter] created and then set twice more, as the
    console's demonstration does. *)
Lemma accessCount_counts_updates_witness :
  let t1 := (addVariable "counter" "42" "global" 10 newTracker).1 in
  accessCount <$> get "counter" t1 = Some 0
  /\ accessCount <$>
       get "counter"
         (set_all "counter" [("43", "global", 20); ("44", "global", 25)] t1)
     = Some (3 - 1).
Proof.
  apply (accessCount_counts_updates newTracker "counter" "42" "global" 10
           [("43", "global", 20); ("44", "global", 25)]).
  - reflexivity.
  - left; reflexivity.
  - vm_compute. discriminate.
Defined.

(** C7, the run that contradicts the specification: right after its
    creation a variable has [accessCount] 0, not 1, and after three sets
    2, not 3. *)
Lemma accessCount_after_creation_is_zero :
  let t1 := (addVariable "counter" "42" "global" 10 newTracker).1 in
  let t3 := (addVariable "counter" "44" "global" 25
               (addVariable "counter" "43" "global" 20 t1).1).1 in
  accessCount <$> get "counter" t1 = Some 0
  /\ accessCount <$> get "counter" t1 <> Some 1
  /\ accessCount <$> get "counter" t3 = Some 2.
Proof. vm_compute. repeat split; discriminate. Qed.

(** C8, instance: the dictionary-shaped value of the console's
    demonstration, stored in a pushed frame. *)
Lemma type_is_fresh_witness :
  let t := (addVariable "config" "{host localhost port 8080}" "local" 14
              (pushScope newTracker)).1 in
  let r := set_lastModifiedLine 14
             (newVariable "config" "{host localhost port 8080}" "local") in
  stored t "config" r /\ type r = classify (value r).
Proof.
  cbn zeta.
  assert (Hs : stored
            (addVariable "config" "{host localhost port 8080}" "local" 14
               (pushScope newTracker)).1 "config"
            (set_lastModifiedLine 14
               (newVariable "config" "{host localhost port 8080}" "local"))).
  { right. eexists. split; [apply list_elem_of_here|]. reflexivity. }
  split; [exact Hs|].
  apply (type_is_fresh _ "config" _
           (reach_addVariable _ _ _ _ _ (reach_pushScope _ reach_new)) Hs).
Defined.

(** C10, instance: a local [tmp] set outside every procedure, with the
    change callback installed. *)
Lemma local_set_without_frame_is_dropped_witness :
  let t := setVariableChangeCallback newTracker in
  addVariable "tmp" "1" "local" 5 t = (t, [mkEvent "tmp" "" "1"])
  /\ get "tmp" (addVariable "tmp" "1" "local" 5 t).1 = None.
Proof.
  apply (local_set_without_frame_is_dropped
           (setVariableChangeCallback newTracker) "tmp" "1" "local" 5);
    [reflexivity | discriminate | reflexivity | reflexivity].
Defined.

End Scenarios.

(** * Further properties of the code *)

(** ** The classifier, by the number of words *)

Section ClassifierByWords.
Context `{Strtod}.

Lemma collect_elements_length (ws acc : list string) :
  (length acc <= 20)%nat ->
  length (collect_elements ws acc) = Nat.min (length acc + length ws) 20.
Proof.
  revert acc. induction ws as [|w ws IH]; intros acc Hacc; cbn [collect_elements].
  - cbn [length]. lia.
  - destruct (length acc <? 20)%nat eqn:E.
    + apply Nat.ltb_lt in E. rewrite IH by (rewrite length_app; cbn; lia).
      rewrite length_app. cbn [length]. lia.
    + apply Nat.ltb_ge in E. cbn [length]. lia.
Qed.

Lemma count_elements_spec (ws : list string) (c : Z) :
  0 <= c <= 10 ->
  count_elements ws c = Z.min (c + Z.of_nat (length ws)) 10.
Proof.
  revert c. induction ws as [|w ws IH]; intros c Hc; cbn [count_elements].
  - cbn [length]. lia.
  - destruct (c <? 10) eqn:E.
    + apply Z.ltb_lt in E. rewrite IH by lia. cbn [length]. lia.
    + apply Z.ltb_ge in E. cbn [length]. lia.
Qed.

(** The chain of tests of [analyzeTypeAndStructure], on a raw value. *)
Lemma classify_chain (raw : string) :
  classify raw =
  if empty raw then "empty"
  else if isNumericValue raw
       then (if contains_char "." raw then "float" else "integer")
  else if isListValue raw then "list"
  else if isDictionaryValue raw then "dictionary"
  else "string".
Proof.
  unfold classify, newVariable, analyzeTypeAndStructure; cbn.
  destruct (empty raw); [reflexivity|].
  destruct (isNumericValue raw); [reflexivity|].
  destruct (isListValue raw); [reflexivity|].
  now destruct (isDictionaryValue raw).
Qed.

Lemma classify_integrated_chain (raw : string) :
  classify_integrated raw =
  if empty raw then "empty"
  else if isNumericValue raw
       then (if contains_char "." raw then "float" else "integer")
  else if Integrated.isDictionaryValue raw then "dictionary"
  else if Integrated.isListValue raw then "list"
  else "string".
Proof.
  unfold classify_integrated, Integrated.newVariable,
    Integrated.analyzeTypeAndStructure; cbn.
  destruct (empty raw); [reflexivity|].
  destruct (isNumericValue raw); [reflexivity|].
  destruct (Integrated.isDictionaryValue raw); [reflexivity|].
  now destruct (Integrated.isListValue raw).
Qed.

Lemma isDictionaryValue_words (raw : string) :
  empty raw = false ->
  isDictionaryValue raw =
  let n := length (words (strip_braces raw)) in
  (20 <=? n)%nat || ((n mod 2 =? 0)%nat && (2 <=? n)%nat).
Proof.
  intros He. unfold isDictionaryValue. rewrite He. cbn zeta.
  rewrite collect_elements_length by (cbn; lia). cbn [length Nat.add].
  set (n := length (words (strip_braces raw))).
  destruct (20 <=? n)%nat eqn:E20.
  - apply Nat.leb_le in E20. rewrite Nat.min_r by lia. reflexivity.
  - apply Nat.leb_gt in E20. rewrite Nat.min_l by lia.
    cbn [orb]. replace (n <=? 20)%nat with true
      by (symmetry; apply Nat.leb_le; lia).
    now rewrite andb_true_r.
Qed.

Lemma isListValue_words (raw : string) :
  empty raw = false ->
  isListValue raw =
  (2 <=? length (words (strip_braces raw)))%nat && negb (isDictionaryValue raw).
Proof.
  intros He. unfold isListValue. rewrite He. cbn zeta.
  rewrite count_elements_spec by lia. f_equal.
  set (n := length (words (strip_braces raw))).
  destruct (2 <=? n)%nat eqn:E.
  - apply Nat.leb_le in E. apply Z.ltb_lt. lia.
  - apply Nat.leb_gt in E. apply Z.ltb_ge. lia.
Qed.

(** X1.  In [src/tcl_debugger.cpp] the tag of a non-empty value that is
    not numeric is decided by the number [n] of words inside its braces:
    [dictionary] when [n] is even and at least 2 and also whenever [n] is
    20 or more (the collection loop stops at 20 words, an even number);
    otherwise [list] when [n] is at least 2; otherwise [string].  The list
    test runs first but gives way to every dictionary. *)
Theorem classify_by_word_count (raw : string) :
  empty raw = false -> isNumericValue raw = false ->
  let n := length (words (strip_braces raw)) in
  classify raw =
  if (20 <=? n)%nat || ((n mod 2 =? 0)%nat && (2 <=? n)%nat) then "dictionary"
  else if (2 <=? n)%nat then "list"
  else "string".
Proof.
  intros He Hn. cbn zeta.
  rewrite classify_chain, He, Hn, (isListValue_words _ He),
    (isDictionaryValue_words _ He). cbn zeta.
  set (n := length (words (strip_braces raw))).
  now destruct (20 <=? n)%nat, (n mod 2 =? 0)%nat, (2 <=? n)%nat.
Qed.

(** X2.  Whatever [src/tcl_integrated_debugger.cpp] classifies as a
    [dictionary], [src/tcl_debugger.cpp] classifies as a [dictionary]
    too. *)
Theorem integrated_dictionary_is_dictionary (raw : string) :
  classify_integrated raw = "dictionary" -> classify raw = "dictionary".
Proof.
  rewrite classify_integrated_chain, classify_chain.
  destruct (empty raw) eqn:He; [discriminate|].
  destruct (isNumericValue raw);
    [destruct (contains_char "." raw); discriminate|].
  destruct (Integrated.isDictionaryValue raw) eqn:Hd.
  - intros _. rewrite (isListValue_words _ He).
    assert (Hd' : isDictionaryValue raw = true).
    { rewrite (isDictionaryValue_words _ He). cbn zeta.
      unfold Integrated.isDictionaryValue in Hd. rewrite He in Hd. cbn zeta in Hd.
      apply andb_true_iff in Hd as [Hd _].
      rewrite Hd. apply orb_true_r. }
    rewrite Hd'. cbn. now rewrite andb_false_r.
  - destruct (Integrated.isListValue raw); discriminate.
Qed.

(** X3.  A value that starts with a digit is numeric however it goes on
    (the test is [std::stod], which converts a prefix): unless the C
    library reports a range error it is a [float] when it contains a
    point and an [integer] otherwise, never a [list], [dictionary] or
    [string]. *)
Theorem leading_digit_is_numeric (c : ascii) (rest : string) :
  isdigit c = true -> strtod_erange (String c rest) = false ->
  classify (String c rest)
  = if contains_char "." (String c rest) then "float" else "integer".
Proof.
  intros Hd Hr. rewrite classify_chain. cbn [empty].
  assert (Hn : isNumericValue (String c rest) = true).
  { unfold isNumericValue, stod. cbn [empty].
    assert (Hc : strtod_converts (String c rest) = true).
    { unfold strtod_converts. cbn [skip_space].
      assert (Hs : isspace c = false).
      { unfold isspace, isdigit in *.
        destruct (nat_of_ascii c =? 32)%nat eqn:E.
        - apply Nat.eqb_eq in E. rewrite E in Hd. discriminate Hd.
        - cbn. apply andb_true_iff in Hd as [H1 _].
          apply Nat.leb_le in H1. apply andb_false_iff. right.
          apply Nat.leb_gt. lia. }
      rewrite Hs. unfold skip_sign.
      assert (Hg : Ascii.eqb c "+" || Ascii.eqb c "-" = false).
      { apply orb_false_iff. split; apply Ascii.eqb_neq; intros ->;
          discriminate Hd. }
      rewrite Hg, Hd. reflexivity. }
    now rewrite Hc, Hr. }
  now rewrite Hn.
Qed.

End ClassifierByWords.

(** ** What every stored record satisfies *)

Section StoredRecords.
Context `{Strtod}.
Implicit Types (t : MemoryAwareVariableTracker) (r : EnhancedVariableInfo).

Lemma map_Forall_alter_key (P : string -> EnhancedVariableInfo -> Prop) f n
    (m : gmap string EnhancedVariableInfo) :
  (forall r, P n r -> P n (f r)) -> map_Forall P m -> map_Forall P (alter f n m).
Proof.
  intros Hf Hm k x Hk. destruct (decide (n = k)) as [->|Hne].
  - rewrite lookup_alter_eq in Hk.
    destruct (m !! k) as [y|] eqn:Hy; [|discriminate Hk].
    injection Hk as <-. apply Hf. exact (Hm k y Hy).
  - rewrite lookup_alter_ne in Hk by done. exact (Hm k x Hk).
Qed.

(** A property of records that creation establishes and [updateValue]
    keeps holds of every record of every reachable tracker; [Pg] is the
    property for the global map, [Pl] the one for the frames. *)
Lemma stored_invariant (Pg Pl : string -> EnhancedVariableInfo -> Prop) :
  (forall n v l, Pg n (set_lastModifiedLine l (newVariable n v "global"))) ->
  (forall n v s l, s <> "global" ->
                   Pl n (set_lastModifiedLine l (newVariable n v s))) ->
  (forall n v l r, Pg n r -> Pg n (updateValue v l r)) ->
  (forall n v l r, Pl n r -> Pl n (updateValue v l r)) ->
  forall t, reachable t ->
    map_Forall Pg (globalVariables t) /\ Forall (map_Forall Pl) (scopeStack t).
Proof.
  intros Hcg Hcl Hug Hul t Hr.
  induction Hr as [|n v s l t _ IH|t _ IH|t _ IH|t _ IH|b t _ IH
                  |x t _ IH|x t _ IH]; try exact IH.
  - split; [apply map_Forall_empty | constructor].
  - destruct IH as [Hg Hs]. unfold addVariable.
    destruct (getVariableInfo n t) as [[[] r]|]; cbn.
    + split; [exact Hg|]. unfold alter_back.
      apply Forall_alter; [exact Hs|]. intros frame _ Hf.
      apply map_Forall_alter_key; [apply Hul | exact Hf].
    + split; [|exact Hs].
      apply map_Forall_alter_key; [apply Hug | exact Hg].
    + destruct (String.eqb s "global") eqn:Es; cbn.
      * apply String.eqb_eq in Es as ->. split; [|exact Hs].
        apply map_Forall_insert_2; [apply Hcg | exact Hg].
      * apply String.eqb_neq in Es.
        case_bool_decide; cbn; [now split|].
        split; [exact Hg|]. unfold alter_back.
        apply Forall_alter; [exact Hs|]. intros frame _ Hf.
        apply map_Forall_insert_2; [now apply Hcl | exact Hf].
  - destruct IH as [Hg Hs]. split; [exact Hg|]. cbn.
    apply Forall_app. split; [exact Hs|].
    constructor; [apply map_Forall_empty | constructor].
  - unfold popScope.
    destruct (scopeStack t) as [|f fs] eqn:E; [rewrite E; exact IH|].
    destruct IH as [Hg Hs]. split; [exact Hg|].
    change (Forall (map_Forall Pl) (removelast (f :: fs))).
    apply Forall_removelast. exact Hs.
Qed.

(** The same, for a property that does not depend on where the record
    lives. *)
Lemma stored_invariant_simple (P : EnhancedVariableInfo -> Prop) :
  (forall n v s l, P (set_lastModifiedLine l (newVariable n v s))) ->
  (forall v l r, P r -> P (updateValue v l r)) ->
  forall t n r, reachable t -> stored t n r -> P r.
Proof.
  intros Hc Hu t n r Hr Hst.
  destruct (stored_invariant (fun _ => P) (fun _ => P)
              (fun n v l => Hc n v "global" l) (fun n v s l _ => Hc n v s l)
              (fun _ => Hu) (fun _ => Hu) t Hr) as [Hg Hs].
  destruct Hst as [Hst|(frame & Hin & Hst)].
  - exact (Hg n r Hst).
  - rewrite Forall_forall in Hs. exact (Hs frame Hin n r Hst).
Qed.

(** *** Flags and icon *)

Lemma analyze_flags_agree r0 :
  isEmpty r0 = empty (value r0) -> flags_agree (analyzeTypeAndStructure r0).
Proof.
  destruct r0 as [n v pv ty sc ln ac rc ia il idc inu ie le ae de vh].
  cbn. intros ->. unfold flags_agree, analyzeTypeAndStructure; cbn.
  destruct (empty v) eqn:He; [cbn; rewrite He; repeat split; discriminate|].
  destruct (isNumericValue v);
    [destruct (contains_char "." v); cbn; rewrite He;
     repeat split; discriminate|].
  destruct (isListValue v); [cbn; rewrite He; repeat split; discriminate|].
  destruct (isDictionaryValue v); cbn; rewrite He; repeat split; discriminate.
Qed.

Lemma flags_agree_line l r : flags_agree r -> flags_agree (set_lastModifiedLine l r).
Proof. intros Hf. exact Hf. Qed.

(** X4.  In every reachable tracker the flags of a stored record agree
    with its tag: [isEmpty] says whether the value is empty, [isNumeric],
    [isList] and [isDictionary] hold exactly for the tags
    [integer]/[float], [list] and [dictionary], [isArray] is never set
    (no value is ever classified as an array), and [getTypeIcon] never
    falls through to its ["[???]"] default. *)
Theorem stored_flags_agree t n r :
  reachable t -> stored t n r -> flags_agree r.
Proof.
  apply (stored_invariant_simple flags_agree).
  - intros n' v s l. apply flags_agree_line.
    unfold newVariable. now apply analyze_flags_agree.
  - intros v l r' _. unfold updateValue. now apply analyze_flags_agree.
Qed.

(** *** The structural views *)

Lemma insert_pairs_foldr (ws : list string) :
  (forall d, insert_pairs ws d
             = foldr (fun p m => <[p.1 := p.2]> m) d (reverse (pair_up ws)))
  /\ (forall k d, insert_pairs (k :: ws) d
                  = foldr (fun p m => <[p.1 := p.2]> m) d
                      (reverse (pair_up (k :: ws)))).
Proof.
  induction ws as [|v ws [IH1 IH2]]; (split; [|intros k]; intros d).
  - reflexivity.
  - reflexivity.
  - apply IH2.
  - cbn [insert_pairs pair_up]. rewrite reverse_cons, foldr_app. cbn [foldr].
    apply IH1.
Qed.

Lemma insert_pairs_list_to_map (ws : list string) :
  insert_pairs ws ∅ = list_to_map (reverse (pair_up ws)).
Proof. apply insert_pairs_foldr. Qed.

Lemma analyze_views_agree r0 :
  isEmpty r0 = empty (value r0) -> views_agree (analyzeTypeAndStructure r0).
Proof.
  destruct r0 as [n v pv ty sc ln ac rc ia il idc inu ie le ae de vh].
  cbn. intros ->. unfold views_agree, analyzeTypeAndStructure; cbn.
  destruct (empty v) eqn:He; [cbn; split; discriminate|].
  destruct (isNumericValue v);
    [destruct (contains_char "." v); cbn; split; discriminate|].
  destruct (isListValue v) eqn:Hl.
  - cbn. split; [|discriminate]. intros _. split; [reflexivity|].
    rewrite (isListValue_words _ He) in Hl.
    apply andb_true_iff in Hl as [Hl _]. now apply Nat.leb_le in Hl.
  - destruct (isDictionaryValue v); cbn; split; try discriminate.
    intros _. apply insert_pairs_list_to_map.
Qed.

(** X5.  In every reachable tracker a stored [list] record has as its
    [listElements] the words of its current value (braces removed), at
    least two of them; a stored [dictionary] record has as its
    [dictElements] the map of the word pairs of its current value, a
    later pair overriding an earlier one with the same key. *)
Theorem stored_views_agree t n r :
  reachable t -> stored t n r ->
  (type r = "list" ->
   listElements r = words (strip_braces (value r))
   /\ (2 <= length (listElements r))%nat)
  /\ (type r = "dictionary" ->
      dictElements r
      = list_to_map (reverse (pair_up (words (strip_braces (value r)))))).
Proof.
  apply (stored_invariant_simple views_agree).
  - intros n' v s l.
    assert (Hv : views_agree (newVariable n' v s))
      by (unfold newVariable; now apply analyze_views_agree).
    exact Hv.
  - intros v l r' _. unfold updateValue. now apply analyze_views_agree.
Qed.

(** X6.  The dictionary view of a value gives each key the value of its
    last pair: if the word pairs of the value are [ps], then [(k, v)],
    then [qs], and no pair of [qs] has the key [k], the view maps [k] to
    [v]. *)
Theorem dictionary_last_pair_wins n raw s ps k v qs :
  classify raw = "dictionary" ->
  pair_up (words (strip_braces raw)) = (ps ++ (k, v) :: qs)%list ->
  k ∉ qs.*1 ->
  dictElements (newVariable n raw s) !! k = Some v.
Proof.
  intros Hc Hp Hk.
  assert (Hd : dictElements (newVariable n raw s)
               = insert_pairs (words (strip_braces raw)) ∅).
  { rewrite classify_chain in Hc.
    unfold newVariable, analyzeTypeAndStructure; cbn.
    destruct (empty raw); [discriminate Hc|].
    destruct (isNumericValue raw);
      [destruct (contains_char "." raw); discriminate Hc|].
    destruct (isListValue raw); [discriminate Hc|].
    destruct (isDictionaryValue raw); [reflexivity|discriminate Hc]. }
  rewrite Hd, insert_pairs_list_to_map, Hp, reverse_app, reverse_cons.
  rewrite <- app_assoc. cbn [app].
  rewrite list_to_map_app, lookup_union_r.
  - cbn. apply lookup_insert_eq.
  - apply not_elem_of_list_to_map_1. rewrite fmap_reverse.
    now rewrite elem_of_reverse.
Qed.

(** X7.  An update overwrites [listElements] only when the new value is
    a [list], and [dictElements] only when it is a [dictionary]; for any
    other new value the view of an earlier value stays in the record. *)
Theorem views_survive_other_kinds v l r :
  listElements (updateValue v l r)
  = (if String.eqb (classify v) "list"
     then words (strip_braces v) else listElements r)
  /\ dictElements (updateValue v l r)
     = (if String.eqb (classify v) "dictionary"
        then insert_pairs (words (strip_braces v)) ∅ else dictElements r).
Proof.
  rewrite classify_chain.
  unfold updateValue, analyzeTypeAndStructure; cbn.
  destruct (empty v); [now split|].
  destruct (isNumericValue v); [destruct (contains_char "." v); now split|].
  destruct (isListValue v); [now split|].
  destruct (isDictionaryValue v); now split.
Qed.

(** *** History, names and scopes *)

Lemma updateValue_previousValue v l r :
  previousValue (updateValue v l r) = value r.
Proof.
  unfold updateValue.
  match goal with
  | |- previousValue (analyzeTypeAndStructure ?x) = _ =>
      destruct (analyze_keeps x) as (_ & _ & Hp & _)
  end.
  exact Hp.
Qed.

Lemma updateValue_name_scope v l r :
  name (updateValue v l r) = name r /\ scope (updateValue v l r) = scope r.
Proof.
  unfold updateValue.
  match goal with
  | |- name (analyzeTypeAndStructure ?x) = _ /\ _ =>
      destruct (analyze_keeps x) as (Hn & _ & _ & Hs & _)
  end.
  now split.
Qed.

Lemma newVariable_name_scope n v s :
  name (newVariable n v s) = n /\ scope (newVariable n v s) = s.
Proof.
  unfold newVariable.
  match goal with
  | |- name (analyzeTypeAndStructure ?x) = _ /\ _ =>
      destruct (analyze_keeps x) as (Hn & _ & _ & Hs & _)
  end.
  now split.
Qed.

Lemma push_history_bound x (h : list string) :
  (length h <= 10)%nat ->
  (length (push_history x h) <= 10)%nat /\ last (push_history x h) = Some x.
Proof.
  intros Hh. unfold push_history. rewrite length_app. cbn [length].
  destruct (10 <? length h + 1)%nat eqn:E.
  - apply Nat.ltb_lt in E. destruct h as [|a h]; [cbn in E; lia|].
    cbn [app tail]. rewrite length_app, last_snoc. cbn [length] in *.
    split; [lia|reflexivity].
  - apply Nat.ltb_ge in E. rewrite length_app, last_snoc. cbn [length].
    split; [lia|reflexivity].
Qed.

(** X8.  In every reachable tracker a stored record has at most ten
    history entries, and the last of them (when there is one) is its
    [previousValue]. *)
Theorem stored_history_bounded t n r :
  reachable t -> stored t n r ->
  (length (valueHistory r) <= 10)%nat
  /\ (valueHistory r <> [] -> last (valueHistory r) = Some (previousValue r)).
Proof.
  apply (stored_invariant_simple history_ok).
  - intros n' v s l. unfold history_ok.
    change (valueHistory (set_lastModifiedLine l ?x)) with (valueHistory x).
    rewrite newVariable_history.
    cbn [length]. split; [lia | congruence].
  - intros v l r' (Hlen & Hlast). unfold history_ok.
    rewrite updateValue_history, updateValue_previousValue.
    destruct (push_history_bound (value r') _ Hlen) as [Hl1 Hl2].
    case_bool_decide as Hh; cbn [negb orb].
    + destruct (String.eqb (value r') v); cbn [negb].
      * rewrite Hh. cbn [length]. split; [lia | congruence].
      * split; [exact Hl1 | intros _; exact Hl2].
    + split; [exact Hl1 | intros _; exact Hl2].
Qed.

(** X9.  Setting a new variable again to the value it was created with,
    any number of times, records nothing: the history stays empty, while
    every such call still counts as an access.  The count is an [int];
    the statement stays within its range. *)
Theorem repeated_value_records_nothing n v0 s (lines : list Z) :
  Z.of_nat (length lines) <= INT_MAX ->
  let r := update_all (map (fun l => (v0, l)) lines) (newVariable n v0 s) in
  valueHistory r = [] /\ value r = v0
  /\ accessCount r = Z.of_nat (length lines).
Proof.
  intros _. cbn zeta.
  assert (Hgen : forall r0, valueHistory r0 = [] -> value r0 = v0 ->
            let r := update_all (map (fun l => (v0, l)) lines) r0 in
            valueHistory r = [] /\ value r = v0
            /\ accessCount r = accessCount r0 + Z.of_nat (length lines)).
  { induction lines as [|l lines IH]; intros r0 Hh Hv; cbn zeta.
    - cbn. repeat split; [exact Hh | exact Hv | lia].
    - cbn [map]. rewrite update_all_cons.
      assert (Hh' : valueHistory (updateValue v0 l r0) = []).
      { rewrite updateValue_history, Hh, Hv, String.eqb_refl. reflexivity. }
      destruct (IH _ Hh' (updateValue_value _ _ _)) as (H1 & H2 & H3).
      rewrite updateValue_accessCount in H3.
      repeat split; [exact H1 | exact H2 |]. rewrite H3. cbn [length]. lia. }
  destruct (Hgen (newVariable n v0 s) (newVariable_history _ _ _)
              (newVariable_value _ _ _)) as (H1 & H2 & H3).
  rewrite newVariable_accessCount in H3. repeat split; [exact H1|exact H2|].
  rewrite H3. lia.
Qed.

(** X10.  In every reachable tracker a record is stored under its own
    name, a record of the global map has the scope ["global"], and a
    record of a frame has another scope. *)
Theorem stored_name_and_scope t :
  reachable t ->
  (forall n r, globalVariables t !! n = Some r ->
               name r = n /\ scope r = "global")
  /\ (forall frame n r, frame ∈ scopeStack t -> frame !! n = Some r ->
                        name r = n /\ scope r <> "global").
Proof.
  intros Hr.
  destruct (stored_invariant
              (fun n r => name r = n /\ scope r = "global")
              (fun n r => name r = n /\ scope r <> "global")) with (t := t)
    as [Hg Hs]; try exact Hr.
  - intros n v l. apply (newVariable_name_scope n v "global").
  - intros n v s l Hne. destruct (newVariable_name_scope n v s) as [H1 H2].
    split; [exact H1|]. change (scope (newVariable n v s) <> "global").
    now rewrite H2.
  - intros n v l r [H1 H2].
    destruct (updateValue_name_scope v l r) as [-> ->]. now split.
  - intros n v l r [H1 H2].
    destruct (updateValue_name_scope v l r) as [-> ->]. now split.
  - split.
    + intros n r Hl. exact (Hg n r Hl).
    + intros frame n r Hin Hl. rewrite Forall_forall in Hs.
      exact (Hs frame Hin n r Hl).
Qed.

End StoredRecords.

(** ** Scopes *)

Section Scopes.
Context `{Strtod}.
Implicit Types (t : MemoryAwareVariableTracker) (r : EnhancedVariableInfo).

Lemma removelast_alter_back f (stack : list (gmap string EnhancedVariableInfo)) :
  removelast (alter_back f stack) = removelast stack.
Proof.
  unfold alter_back. induction stack as [|a stack IH]; [reflexivity|].
  destruct stack as [|b stack]; [reflexivity|].
  change (alter f (pred (length (a :: b :: stack))) (a :: b :: stack))
    with (a :: alter f (pred (length (b :: stack))) (b :: stack)).
  assert (Hne : alter f (pred (length (b :: stack))) (b :: stack) <> []).
  { intros E. apply (f_equal length) in E. rewrite length_alter in E.
    discriminate E. }
  destruct (alter f (pred (length (b :: stack))) (b :: stack)) eqn:E;
    [contradiction|].
  cbn [removelast] in *. now rewrite IH.
Qed.

Lemma scopeStack_addVariable n v s l t :
  scopeStack (addVariable n v s l t).1 = scopeStack t
  \/ exists f, scopeStack (addVariable n v s l t).1
               = alter_back f (scopeStack t).
Proof.
  unfold addVariable. destruct (getVariableInfo n t) as [[[] r]|]; cbn.
  - right. eauto.
  - now left.
  - destruct (String.eqb s "global"); cbn; [now left|].
    case_bool_decide; cbn; [now left|]. right. eauto.
Qed.

(** X11.  A [set] touches only the top frame and the global map: the
    stack keeps its depth and every frame below the top stays as it
    was. *)
Theorem addVariable_keeps_lower_frames n v s l t :
  length (scopeStack (addVariable n v s l t).1) = length (scopeStack t)
  /\ removelast (scopeStack (addVariable n v s l t).1)
     = removelast (scopeStack t).
Proof.
  destruct (scopeStack_addVariable n v s l t) as [->|[f ->]]; [now split|].
  split; [apply length_alter | apply removelast_alter_back].
Qed.

(** X12.  A [set] on one name leaves what [get] finds for every other
    name as it was. *)
Theorem addVariable_keeps_other_names n n' v s l t :
  n <> n' -> get n' (addVariable n v s l t).1 = get n' t.
Proof.
  intros Hne. rewrite !get_lookup. unfold local_lookup, addVariable.
  destruct (getVariableInfo n t) as [[[] r]|]; cbn.
  - rewrite last_alter_back.
    destruct (last (scopeStack t)) as [frame|]; [|reflexivity].
    cbn. now rewrite lookup_alter_ne.
  - now rewrite lookup_alter_ne.
  - destruct (String.eqb s "global"); cbn.
    + now rewrite lookup_insert_ne.
    + case_bool_decide; cbn; [reflexivity|].
      rewrite last_alter_back.
      destruct (last (scopeStack t)) as [frame|]; [|reflexivity].
      cbn. now rewrite lookup_insert_ne.
Qed.

(** X13.  Inside a newly pushed scope only the globals are visible: the
    variables of the frames below, the caller's included, are hidden
    until the scope is popped. *)
Theorem pushScope_shows_globals_only n t :
  get n (pushScope t) = globalVariables t !! n
  /\ get n (popScope (pushScope t)) = get n t.
Proof.
  split.
  - now rewrite get_lookup, local_lookup_pushScope.
  - now rewrite popScope_pushScope.
Qed.

(** X14.  A variable created in a pushed scope dies with it: when the
    name is not a global and the scope given is not ["global"], pushing
    a scope, setting the variable and popping the scope gives back the
    tracker exactly as it was. *)
Theorem local_variable_dies_with_scope n v s l t :
  globalVariables t !! n = None -> s <> "global" ->
  popScope (addVariable n v s l (pushScope t)).1 = t
  /\ get n (addVariable n v s l (pushScope t)).1
     = Some (set_lastModifiedLine l (newVariable n v s)).
Proof.
  intros Hg Hs.
  assert (Hget : get n (pushScope t) = None).
  { rewrite get_lookup, local_lookup_pushScope. exact Hg. }
  assert (Hst : scopeStack (pushScope t) <> [])
    by (cbn; intros E; now apply app_nil in E as [_ ?]).
  split; [|apply get_addVariable_created; [exact Hget | now right]].
  rewrite (addVariable_absent _ _ _ _ _ Hget). cbn zeta.
  apply String.eqb_neq in Hs. rewrite Hs.
  rewrite bool_decide_eq_false_2 by exact Hst. cbn [negb].
  unfold popScope.
  change (scopeStack (set_scopeStack ?x _)) with x.
  destruct (alter_back <[n:=set_lastModifiedLine l (newVariable n v s)]>
              (scopeStack (pushScope t))) eqn:E.
  - apply (f_equal length) in E. unfold alter_back in E.
    rewrite length_alter in E. cbn in E. rewrite length_app in E.
    cbn in E. lia.
  - rewrite <- E, removelast_alter_back. cbn.
    rewrite removelast_last. now destruct t.
Qed.

End Scopes.

(** ** The registry as a sorted map *)

Section Registry.
Implicit Types (m : BreakpointMap) (bp : EnhancedBreakpoint) (k l : Z).

Lemma keys_assign_Forall (P : Z -> Prop) k bp m :
  P k -> Forall P m.*1 -> Forall P (map_assign k bp m).*1.
Proof.
  intros Hk. induction m as [|[k' bp'] m IH]; intros Hm; cbn.
  - now repeat constructor.
  - cbn in Hm. apply Forall_cons in Hm as [Hk' Hm'].
    destruct (k <? k'); cbn; [now repeat constructor|].
    destruct (k =? k'); cbn; constructor; auto.
Qed.

Lemma sorted_assign k bp m :
  StronglySorted Z.lt m.*1 -> StronglySorted Z.lt (map_assign k bp m).*1.
Proof.
  induction m as [|[k' bp'] m IH]; intros Hs; cbn.
  - repeat constructor.
  - cbn in Hs. pose proof Hs as Hs0.
    apply StronglySorted_inv in Hs as [Hs' Hall].
    destruct (k <? k') eqn:Elt; cbn.
    + apply Z.ltb_lt in Elt. constructor; [exact Hs0|].
      constructor; [exact Elt|].
      eapply Forall_impl; [exact Hall|]. cbn. intros; lia.
    + destruct (k =? k') eqn:Eeq; cbn.
      * apply Z.eqb_eq in Eeq as ->. now constructor.
      * apply Z.ltb_ge in Elt. apply Z.eqb_neq in Eeq.
        constructor; [now apply IH|].
        apply keys_assign_Forall; [lia | exact Hall].
Qed.

Lemma well_formed_assign k bp m :
  line bp = k -> well_formed m -> well_formed (map_assign k bp m).
Proof.
  intros Hl [Hs Hk]. split; [now apply sorted_assign|].
  clear Hs. induction m as [|[k' bp'] m IH]; cbn.
  - now repeat constructor.
  - apply Forall_cons in Hk as [Hk' Hm'].
    destruct (k <? k'); [now repeat constructor|].
    destruct (k =? k'); constructor; auto.
Qed.

Lemma keys_erase_Forall (P : Z -> Prop) k m :
  Forall P m.*1 -> Forall P (map_erase k m).*1.
Proof.
  induction m as [|[k' bp'] m IH]; intros Hm; cbn; [constructor|].
  cbn in Hm. apply Forall_cons in Hm as [Hk' Hm'].
  destruct (k' =? k); cbn; [assumption|].
  constructor; auto.
Qed.

Lemma well_formed_erase k m : well_formed m -> well_formed (map_erase k m).
Proof.
  intros [Hs Hk]. split.
  - induction m as [|[k' bp'] m IH]; cbn; [constructor|].
    cbn in Hs. apply StronglySorted_inv in Hs as [Hs' Hall].
    apply Forall_cons in Hk as [_ Hk].
    destruct (k' =? k); cbn; [exact Hs'|].
    constructor; [now apply IH | now apply keys_erase_Forall].
  - clear Hs. induction m as [|[k' bp'] m IH]; cbn; [constructor|].
    apply Forall_cons in Hk as [Hk' Hm'].
    destruct (k' =? k); [assumption|].
    constructor; auto.
Qed.

Lemma keys_modify f k m : (map_modify f k m).*1 = m.*1.
Proof.
  induction m as [|[k' bp'] m IH]; cbn; [reflexivity|].
  destruct (k' =? k); cbn; [reflexivity | now rewrite IH].
Qed.

Lemma well_formed_modify f k m :
  (forall bp, line (f bp) = line bp) ->
  well_formed m -> well_formed (map_modify f k m).
Proof.
  intros Hf [Hs Hk]. split; [now rewrite keys_modify|].
  clear Hs. induction m as [|[k' bp'] m IH]; cbn; [constructor|].
  apply Forall_cons in Hk as [Hk' Hm']. cbn in Hk'.
  destruct (k' =? k); constructor; cbn; auto. now rewrite Hf.
Qed.

Lemma keys_watch_loop varName oldValue newValue m :
  (watch_loop varName oldValue newValue m).2.*1 = m.*1.
Proof.
  induction m as [|[k bp] m IH]; cbn; [reflexivity|].
  destruct (enabled bp && String.eqb (watchVariable bp) varName).
  - destruct (watch_returns_true (hit bp) oldValue newValue); cbn;
      [reflexivity|].
    destruct (watch_loop varName oldValue newValue m); cbn in *.
    now rewrite IH.
  - destruct (watch_loop varName oldValue newValue m); cbn in *.
    now rewrite IH.
Qed.

Lemma well_formed_watch_loop varName oldValue newValue m :
  well_formed m -> well_formed (watch_loop varName oldValue newValue m).2.
Proof.
  intros [Hs Hk]. split; [now rewrite keys_watch_loop|].
  clear Hs. induction m as [|[k bp] m IH]; cbn; [constructor|].
  apply Forall_cons in Hk as [Hk' Hm']. cbn in Hk'.
  destruct (enabled bp && String.eqb (watchVariable bp) varName).
  - destruct (watch_returns_true (hit bp) oldValue newValue); cbn.
    + constructor; [exact Hk' | exact Hm'].
    + specialize (IH Hm').
      destruct (watch_loop varName oldValue newValue m); cbn in *.
      constructor; [exact Hk' | exact IH].
  - specialize (IH Hm').
    destruct (watch_loop varName oldValue newValue m); cbn in *.
    constructor; [exact Hk' | exact IH].
Qed.

Lemma manager_reachable_well_formed (m : EnhancedBreakpointManager) :
  manager_reachable m -> well_formed (breakpoints m).
Proof.
  induction 1 as [|l file cond m _ IH|l varName cond m _ IH|l m _ IH
                  |l m _ IH|l m _ IH|varName oldValue newValue m _ IH].
  - split; constructor.
  - now apply well_formed_assign.
  - now apply well_formed_assign.
  - unfold removeBreakpoint. destruct (map_find l (breakpoints m)); [|exact IH].
    now apply well_formed_erase.
  - unfold hitBreakpoint. destruct (map_find l (breakpoints m)); [|exact IH].
    now apply well_formed_modify.
  - unfold toggleBreakpoint. destruct (map_find l (breakpoints m)); [|exact IH].
    now apply well_formed_modify.
  - unfold checkVariableWatchBreakpoint.
    pose proof (well_formed_watch_loop varName oldValue newValue _ IH) as Hw.
    now destruct (watch_loop varName oldValue newValue (breakpoints m)).
Qed.

(** X15.  Whatever sequence of public calls produced it, the registry has
    its entries in strictly increasing line order, one per line, and every
    breakpoint carries the key it is stored under as its [line]. *)
Theorem registry_is_sorted_by_line (m : EnhancedBreakpointManager) :
  manager_reachable m ->
  StronglySorted Z.lt (breakpoints m).*1
  /\ Forall (fun e => line e.2 = e.1) (breakpoints m).
Proof. apply manager_reachable_well_formed. Qed.

Lemma map_find_above k m : Forall (Z.lt k) m.*1 -> map_find k m = None.
Proof.
  induction m as [|[k' bp'] m IH]; intros Ha; cbn; [reflexivity|].
  cbn in Ha. apply Forall_cons in Ha as [Hk Hm].
  replace (k' =? k) with false by (symmetry; apply Z.eqb_neq; lia).
  now apply IH.
Qed.

Lemma map_find_erase_eq k m :
  StronglySorted Z.lt m.*1 -> map_find k (map_erase k m) = None.
Proof.
  induction m as [|[k' bp'] m IH]; intros Hs; cbn; [reflexivity|].
  cbn in Hs. apply StronglySorted_inv in Hs as [Hs' Hall].
  destruct (k' =? k) eqn:E; cbn.
  - apply Z.eqb_eq in E as <-. now apply map_find_above.
  - rewrite E. now apply IH.
Qed.

Lemma map_find_erase_ne k k0 m :
  k <> k0 -> map_find k0 (map_erase k m) = map_find k0 m.
Proof.
  intros Hne. induction m as [|[k' bp'] m IH]; cbn; [reflexivity|].
  destruct (k' =? k) eqn:E; cbn.
  - apply Z.eqb_eq in E as ->.
    now replace (k =? k0) with false by (symmetry; now apply Z.eqb_neq).
  - now rewrite IH.
Qed.

(** X16.  After [removeBreakpoint(l)] there is no breakpoint at line [l]
    and the line-hit check there answers [false]; the breakpoints of
    every other line are as they were. *)
Theorem removeBreakpoint_removes (m : EnhancedBreakpointManager) l :
  manager_reachable m ->
  map_find l (breakpoints (removeBreakpoint l m)) = None
  /\ (hasBreakpoint l (removeBreakpoint l m)).1 = false
  /\ forall l', l' <> l ->
       map_find l' (breakpoints (removeBreakpoint l m))
       = map_find l' (breakpoints m).
Proof.
  intros Hr. destruct (manager_reachable_well_formed m Hr) as [Hs _].
  assert (Hnone : map_find l (breakpoints (removeBreakpoint l m)) = None).
  { unfold removeBreakpoint.
    destruct (map_find l (breakpoints m)) eqn:E; [|exact E].
    now apply map_find_erase_eq. }
  split; [exact Hnone|]. split.
  - unfold hasBreakpoint. now rewrite Hnone.
  - intros l' Hne. unfold removeBreakpoint.
    destruct (map_find l (breakpoints m)); [|reflexivity].
    apply map_find_erase_ne. congruence.
Qed.

Lemma toggle_toggle bp : toggle (toggle bp) = bp.
Proof. destruct bp; unfold toggle; cbn. now rewrite negb_involutive. Qed.

Lemma map_modify_toggle_twice l m :
  map_modify toggle l (map_modify toggle l m) = m.
Proof.
  induction m as [|[k bp] m IH]; cbn; [reflexivity|].
  destruct (k =? l) eqn:E; cbn; rewrite E.
  - now rewrite toggle_toggle.
  - now rewrite IH.
Qed.

(** X17.  [toggleBreakpoint] flips the [enabled] flag of the breakpoint
    of the line, so the line-hit check there answers the opposite, and
    toggling twice gives back the registry as it was; on a line without
    a breakpoint it does nothing. *)
Theorem toggleBreakpoint_flips (m : EnhancedBreakpointManager) l :
  toggleBreakpoint l (toggleBreakpoint l m) = m
  /\ enabled <$> map_find l (breakpoints (toggleBreakpoint l m))
     = negb <$> (enabled <$> map_find l (breakpoints m))
  /\ (map_find l (breakpoints m) = None -> toggleBreakpoint l m = m).
Proof.
  unfold toggleBreakpoint.
  destruct (map_find l (breakpoints m)) as [bp|] eqn:E; cbn.
  - rewrite map_find_modify, E. cbn.
    rewrite map_modify_toggle_twice. repeat split; [now destruct m|discriminate].
  - rewrite E. now repeat split.
Qed.

(** *** Watch evaluation *)

Lemma watch_loop_result varName oldValue newValue m :
  (watch_loop varName oldValue newValue m).1
  = existsb (fires varName oldValue newValue) m.
Proof.
  induction m as [|[k bp] m IH]; cbn; [reflexivity|].
  unfold fires at 1, watches; cbn.
  destruct (enabled bp && String.eqb (watchVariable bp) varName); cbn.
  - destruct (watch_returns_true (hit bp) oldValue newValue); cbn;
      [reflexivity|].
    now destruct (watch_loop varName oldValue newValue m).
  - now destruct (watch_loop varName oldValue newValue m).
Qed.

Lemma watch_loop_quiet varName oldValue newValue m :
  existsb (fires varName oldValue newValue) m = false ->
  watch_loop varName oldValue newValue m = (false, map (count_hit varName) m).
Proof.
  induction m as [|[k bp] m IH]; cbn; [reflexivity|].
  unfold fires at 1, count_hit at 1, watches; cbn.
  destruct (enabled bp && String.eqb (watchVariable bp) varName); cbn.
  - destruct (watch_returns_true (hit bp) oldValue newValue); cbn;
      [discriminate|].
    intros Hq. now rewrite (IH Hq).
  - intros Hq. now rewrite (IH Hq).
Qed.

Lemma watch_loop_first varName oldValue newValue pre e post :
  existsb (fires varName oldValue newValue) pre = false ->
  fires varName oldValue newValue e = true ->
  watch_loop varName oldValue newValue (pre ++ e :: post)%list
  = (true, (map (count_hit varName) pre ++ (e.1, hit e.2) :: post)%list).
Proof.
  intros Hpre He. induction pre as [|[k bp] pre IH]; cbn.
  - destruct e as [k bp]. unfold fires, watches in He; cbn in *.
    apply andb_true_iff in He as [-> ->]. reflexivity.
  - cbn in Hpre. apply orb_false_iff in Hpre as [Hf Hpre].
    unfold fires, watches in Hf; cbn in Hf. unfold count_hit at 1, watches; cbn.
    destruct (enabled bp && String.eqb (watchVariable bp) varName); cbn in *.
    + rewrite Hf, (IH Hpre). reflexivity.
    + now rewrite (IH Hpre).
Qed.

(** X18.  [checkVariableWatchBreakpoint] answers [true] exactly when the
    registry holds an enabled breakpoint that watches the variable and
    whose condition holds for the change; disabled breakpoints and those
    of other variables never make it answer [true]. *)
Theorem watch_check_result (m : EnhancedBreakpointManager)
    (varName oldValue newValue : string) :
  (checkVariableWatchBreakpoint varName oldValue newValue m).1
  = existsb (fires varName oldValue newValue) (breakpoints m).
Proof.
  unfold checkVariableWatchBreakpoint.
  rewrite <- watch_loop_result.
  now destruct (watch_loop varName oldValue newValue (breakpoints m)).
Qed.

(** X19.  The evaluation stops at the first breakpoint that fires: the
    enabled watches of the variable before it and that one get their
    [hitCount] raised by one, and every breakpoint after it, watches of
    the same variable included, is left untouched.  The counts are
    [int]s; the statement is for a registry whose counts are below
    [INT_MAX]. *)
Theorem watch_check_stops_at_first (m : EnhancedBreakpointManager)
    (varName oldValue newValue : string) pre e post :
  Forall (fun entry => 0 <= hitCount entry.2 < INT_MAX) (breakpoints m) ->
  breakpoints m = (pre ++ e :: post)%list ->
  existsb (fires varName oldValue newValue) pre = false ->
  fires varName oldValue newValue e = true ->
  checkVariableWatchBreakpoint varName oldValue newValue m
  = (true,
     mkManager (map (count_hit varName) pre ++ (e.1, hit e.2) :: post)%list).
Proof.
  intros _ Hm Hpre He. unfold checkVariableWatchBreakpoint.
  now rewrite Hm, (watch_loop_first _ _ _ _ _ _ Hpre He).
Qed.

(** X20.  When no breakpoint fires, every enabled watch of the variable
    has its [hitCount] raised by one and nothing else in the registry
    changes.  The counts are [int]s; the statement is for a registry
    whose counts are below [INT_MAX]. *)
Theorem watch_check_counts_all (m : EnhancedBreakpointManager)
    (varName oldValue newValue : string) :
  Forall (fun entry => 0 <= hitCount entry.2 < INT_MAX) (breakpoints m) ->
  existsb (fires varName oldValue newValue) (breakpoints m) = false ->
  checkVariableWatchBreakpoint varName oldValue newValue m
  = (false, mkManager (map (count_hit varName) (breakpoints m))).
Proof.
  intros _ Hq. unfold checkVariableWatchBreakpoint.
  now rewrite (watch_loop_quiet _ _ _ _ Hq).
Qed.

End Registry.

(** ** The grammar of watch conditions *)

Section Conditions.
Implicit Types (bp : EnhancedBreakpoint) (key expected : string).

Lemma find_char_absent (c : ascii) (s : string) :
  contains_char c s = false -> find_char c s = None.
Proof.
  induction s as [|d s IH]; cbn; [reflexivity|].
  destruct (Ascii.eqb d c); cbn; [discriminate|].
  intros Hc. now rewrite (IH Hc).
Qed.

Lemma find_char_first (c : ascii) key rest :
  contains_char c key = false ->
  find_char c (key ++ String c rest) = Some (String.length key)
  /\ substr_from (String.length key + 1) (key ++ String c rest) = rest.
Proof.
  induction key as [|d key IH]; intros Hc.
  - change ("" ++ String c rest) with (String c rest).
    cbn [find_char String.length Nat.add substr_from].
    rewrite Ascii.eqb_refl. now split.
  - rewrite append_String.
    cbn [contains_char] in Hc.
    cbn [find_char String.length Nat.add substr_from].
    destruct (Ascii.eqb d c); [discriminate Hc|]. cbn [orb] in Hc.
    destruct (IH Hc) as [-> ->]. now split.
Qed.

Lemma contains_char_app (c : ascii) key rest :
  contains_char c (key ++ String c rest) = true.
Proof.
  induction key as [|d key IH].
  - change ("" ++ String c rest) with (String c rest).
    cbn [contains_char]. now rewrite Ascii.eqb_refl.
  - rewrite append_String. cbn [contains_char]. rewrite IH. apply orb_true_r.
Qed.

(** X21.  A watch condition of the form [key=expected], where [key] has
    no [=], fires exactly when the new value is [expected], the text
    after the first [=]; the key and the old value play no part. *)
Theorem watch_condition_key_value bp key expected (oldValue newValue : string) :
  contains_char "=" key = false ->
  memoryCondition bp = key ++ "=" ++ expected ->
  watch_returns_true bp oldValue newValue = String.eqb newValue expected.
Proof.
  intros Hk Hm. unfold watch_returns_true. rewrite Hm.
  change (key ++ "=" ++ expected) with (key ++ String "=" expected).
  assert (He : empty (key ++ String "=" expected) = false)
    by now destruct key.
  assert (Hc : String.eqb (key ++ String "=" expected) "changed" = false).
  { apply String.eqb_neq. intros E.
    pose proof (contains_char_app "=" key expected) as Hin.
    rewrite E in Hin. discriminate Hin. }
  rewrite He, Hc. cbn [negb andb].
  now destruct (find_char_first "=" key expected Hk) as [-> ->].
Qed.

(** X22.  A watch condition without [=] fires on a change of value when
    it is empty or the word [changed], and never otherwise. *)
Theorem watch_condition_without_equals bp (oldValue newValue : string) :
  contains_char "=" (memoryCondition bp) = false ->
  watch_returns_true bp oldValue newValue
  = if empty (memoryCondition bp) || String.eqb (memoryCondition bp) "changed"
    then negb (String.eqb oldValue newValue)
    else false.
Proof.
  intros Hc. unfold watch_returns_true. rewrite (find_char_absent _ _ Hc).
  destruct (empty (memoryCondition bp)) eqn:He; cbn.
  - destruct (memoryCondition bp); [reflexivity|discriminate He].
  - destruct (String.eqb (memoryCondition bp) "changed"); cbn; [|reflexivity].
    now destruct (String.eqb oldValue newValue).
Qed.

End Conditions.

(** ** Output formatting *)

Section Formatting.

Lemma length_fill (n : nat) (c : ascii) : String.length (fill n c) = n.
Proof. induction n as [|n IH]; cbn; [reflexivity | now rewrite IH]. Qed.

Lemma length_append (s1 s2 : string) :
  String.length (s1 ++ s2) = (String.length s1 + String.length s2)%nat.
Proof.
  induction s1 as [|d s1 IH]; [reflexivity|].
  rewrite append_String. cbn [String.length]. now rewrite IH.
Qed.

Lemma starts_with_append (s rest : string) : starts_with s (s ++ rest) = true.
Proof.
  induction s as [|d s IH]; [reflexivity|].
  rewrite append_String. cbn [starts_with]. now rewrite Ascii.eqb_refl, IH.
Qed.

Lemma starts_with_refl (s : string) : starts_with s s = true.
Proof.
  induction s as [|d s IH]; [reflexivity|].
  cbn [starts_with]. now rewrite Ascii.eqb_refl, IH.
Qed.

Lemma length_padRight (str : string) (width : nat) :
  String.length (padRight str width) = Nat.max (String.length str) width.
Proof.
  unfold padRight. destruct (width <=? String.length str)%nat eqn:E.
  - apply Nat.leb_le in E. lia.
  - apply Nat.leb_gt in E. rewrite length_append, length_fill. lia.
Qed.

(** X23.  [padRight], [padLeft] and [center] never cut the text: the
    result is [width] characters long, or as long as the text when that
    is longer; [padRight] keeps the text at the start, and [center] puts
    at most one more space after the text than before it. *)
Theorem padding_widths (str : string) (width : nat) :
  String.length (padRight str width) = Nat.max (String.length str) width
  /\ String.length (padLeft str width) = Nat.max (String.length str) width
  /\ String.length (center str width) = Nat.max (String.length str) width
  /\ starts_with str (padRight str width) = true
  /\ exists leftPad rightPad,
       center str width = fill leftPad " " ++ str ++ fill rightPad " "
       /\ (leftPad <= rightPad <= leftPad + 1)%nat.
Proof.
  unfold padRight, padLeft, center.
  destruct (width <=? String.length str)%nat eqn:E.
  - apply Nat.leb_le in E. repeat split; try lia.
    + apply starts_with_refl.
    + exists 0%nat, 0%nat. cbn [fill]. split; [|lia].
      change ("" ++ str ++ "") with (str ++ "").
      clear E. induction str as [|d str IH]; [reflexivity|].
      rewrite append_String. now rewrite <- IH.
  - apply Nat.leb_gt in E. cbn zeta.
    rewrite !length_append, !length_fill.
    pose proof (Nat.Div0.div_le_upper_bound
                  (width - String.length str) 2 (width - String.length str)).
    pose proof (Nat.div_mod_eq (width - String.length str) 2) as Hdm.
    pose proof (Nat.mod_upper_bound (width - String.length str) 2) as Hmod.
    repeat split; try lia.
    + apply starts_with_append.
    + eexists _, _. split; [reflexivity|]. lia.
Qed.

Lemma length_substring_0 (n : nat) (s : string) :
  String.length (substring 0 n s) = Nat.min n (String.length s).
Proof.
  revert s. induction n as [|n IH]; intros s.
  - now destruct s.
  - destruct s as [|d s]; [reflexivity|]. cbn. now rewrite IH.
Qed.

(** X24.  The value cell of a table row is always exactly 25 characters
    wide, whatever the value; a value of up to 23 characters is shown
    whole between its quotes. *)
Theorem value_cell_width (r : EnhancedVariableInfo) :
  String.length (value_cell r) = 25%nat
  /\ ((String.length (value r) <= 23)%nat ->
      value_cell r = padRight ("'" ++ value r ++ "'") 25).
Proof.
  unfold value_cell. cbn zeta.
  assert (Hl : String.length ("'" ++ value r ++ "'")
               = S (S (String.length (value r)))).
  { rewrite !length_append. cbn [String.length]. lia. }
  split.
  - rewrite length_padRight.
    destruct (25 <? _)%nat eqn:E; [|apply Nat.ltb_ge in E; lia].
    apply Nat.ltb_lt in E.
    rewrite length_append, length_substring_0. cbn [String.length]. lia.
  - intros Hv. replace (25 <? _)%nat with false; [reflexivity|].
    symmetry. apply Nat.ltb_ge. rewrite Hl. lia.
Qed.

End Formatting.

(** ** Stepping and running *)

Section Stepping.
Context `{Strtod} `{Regex}.
Implicit Types (c : DebugConsole) (e : ScriptExecutionController).
Implicit Types (t : MemoryAwareVariableTracker).



(** *** What a step changes *)

Lemma simulateLineExecution_keeps (text : string) (ln : Z) c :
  let c' := simulateLineExecution text ln c in
  breakpointManager c' = breakpointManager c
  /\ exists st, executionController c'
                = set_callStack st (executionController c).
Proof.
  assert (Hid : forall e, e = set_callStack (callStack e) e)
    by (now intros []).
  unfold simulateLineExecution.
  destruct (has_substring "set " text);
    [destruct (regex_search_set text) as [[varName v]|]|];
    (destruct (has_substring "proc " text);
     [destruct (regex_search_proc text)|]); cbn;
    (split; [reflexivity|]); eauto.
Qed.

Lemma step_manager c :
  breakpointManager (simulateStepExecution c) = breakpointManager c.
Proof.
  unfold simulateStepExecution.
  destruct (negb (empty (getCurrentLineText (executionController c))));
    [|reflexivity].
  cbn. apply simulateLineExecution_keeps.
Qed.

Lemma run_manager c : breakpointManager (runScript c) = breakpointManager c.
Proof. reflexivity. Qed.

Lemma Forall_map_assign (P : Z * EnhancedBreakpoint -> Prop) k bp m :
  P (k, bp) -> Forall P m -> Forall P (map_assign k bp m).
Proof.
  intros Hk. induction m as [|[k' bp'] m IH]; intros Hm; cbn.
  - now repeat constructor.
  - apply Forall_cons in Hm as [Hk' Hm'].
    destruct (k <? k'); [now repeat constructor|].
    destruct (k =? k'); constructor; auto.
Qed.

Lemma Forall_map_erase (P : Z * EnhancedBreakpoint -> Prop) k m :
  Forall P m -> Forall P (map_erase k m).
Proof.
  induction m as [|[k' bp'] m IH]; intros Hm; cbn; [constructor|].
  apply Forall_cons in Hm as [Hk' Hm'].
  destruct (k' =? k); [assumption|]. constructor; auto.
Qed.

(** X26.  Through the console no breakpoint is ever counted or disabled:
    after any sequence of commands every breakpoint of the registry is
    enabled and has [hitCount] 0 (stepping calls the line-hit check, which
    counts nothing, and no command reaches [hitBreakpoint],
    [toggleBreakpoint] or the watch evaluation), and a watch breakpoint
    can only sit under key 0. *)
Theorem console_never_counts_hits c :
  console_reachable c ->
  Forall (fun entry => hitCount entry.2 = 0 /\ enabled entry.2 = true
                       /\ (watchVariable entry.2 <> "" -> entry.1 = 0))
         (breakpoints (breakpointManager c)).
Proof.
  induction 1 as [|filePath file c _ IH|c _ IH|c _ IH|c _ IH|c _ IH|c _ IH
                  |l c _ IH|varname c _ IH|l c _ IH|varname c _ IH
                  |varname c _ IH|b c _ IH]; try exact IH.
  - constructor.
  - unfold stepInto. now rewrite step_manager.
  - unfold stepOver. now rewrite step_manager.
  - now apply Forall_map_assign.
  - now apply Forall_map_assign.
  - cbn. unfold removeBreakpoint.
    destruct (map_find l (breakpoints (breakpointManager c))); [|exact IH].
    now apply Forall_map_erase.
Qed.

(** *** Scopes under the console *)

Lemma scopeStack_popScope t :
  scopeStack (popScope t) = removelast (scopeStack t).
Proof.
  unfold popScope. destruct (scopeStack t) eqn:E; [now rewrite E | reflexivity].
Qed.

Lemma addVariable_stack n v s l t :
  length (scopeStack (addVariable n v s l t).1) = length (scopeStack t)
  /\ removelast (scopeStack (addVariable n v s l t).1)
     = removelast (scopeStack t).
Proof.
  destruct (scopeStack_addVariable n v s l t) as [->|[f ->]]; [now split|].
  split; [apply length_alter | apply removelast_alter_back].
Qed.

Lemma removelast_of_pushed (A : Type) (st st0 : list A) (x : A) :
  length st = length (st0 ++ [x])%list ->
  removelast st = removelast (st0 ++ [x])%list ->
  removelast st = st0.
Proof. intros _ ->. apply removelast_last. Qed.

(** The demonstration calls leave the scope stack as they found it. *)
Lemma simulateFunctionCalls_stack c :
  scopeStack (variableTracker (simulateFunctionCalls c))
  = scopeStack (variableTracker c)
  /\ callStack (executionController (simulateFunctionCalls c))
     = callStack (executionController c).
Proof.
  unfold simulateFunctionCalls. cbn [variableTracker executionController].
  split.
  - set (t0 := variableTracker c).
    set (t1 := (addVariable "width" "10" "local" 31 (pushScope t0)).1).
    set (t2 := (addVariable "height" "20" "local" 32 t1).1).
    set (t3 := (addVariable "area" "200" "local" 33 t2).1).
    set (t4 := (addVariable "input" "valid" "local" 36 (pushScope t3)).1).
    rewrite !scopeStack_popScope.
    destruct (addVariable_stack "input" "valid" "local" 36 (pushScope t3))
      as [_ H4].
    fold t4 in H4. rewrite H4. cbn [pushScope scopeStack set_scopeStack].
    rewrite removelast_last.
    destruct (addVariable_stack "area" "200" "local" 33 t2) as [_ H3].
    destruct (addVariable_stack "height" "20" "local" 32 t1) as [_ H2].
    destruct (addVariable_stack "width" "10" "local" 31 (pushScope t0))
      as [_ H1].
    fold t1 in H1, H2. fold t2 in H2, H3. fold t3 in H3.
    rewrite H3, H2, H1. cbn [pushScope scopeStack set_scopeStack].
    apply removelast_last.
  - unfold exitFunction, enterFunction. cbn.
    set (cs := callStack (executionController c)).
    destruct ((cs ++ [_]) ++ [_])%list eqn:E1;
      [now apply app_nil in E1 as [_ ?]|].
    rewrite <- E1, removelast_last. cbn.
    destruct (cs ++ [_])%list eqn:E2; [now apply app_nil in E2 as [_ ?]|].
    rewrite <- E2. cbn. now rewrite removelast_last.
Qed.

Lemma simulateVariableAssignments_stack t :
  length (scopeStack (simulateVariableAssignments t)) = length (scopeStack t)
  /\ removelast (scopeStack (simulateVariableAssignments t))
     = removelast (scopeStack t).
Proof.
  assert (Htrans : forall a b c : list (gmap string EnhancedVariableInfo),
            length a = length b /\ removelast a = removelast b ->
            length b = length c /\ removelast b = removelast c ->
            length a = length c /\ removelast a = removelast c)
    by (intros a b c [-> ->] [-> ->]; now split).
  unfold simulateVariableAssignments. cbn zeta.
  repeat (eapply Htrans; [apply addVariable_stack|]).
  now split.
Qed.

(** X27.  [runScript] (and [continue]) is balanced: whatever state it
    starts from, it gives back the call stack as it was, the scope stack
    with the same depth and the same frames below the top, and the
    breakpoint registry untouched. *)
Theorem runScript_is_balanced c :
  callStack (executionController (runScript c))
  = callStack (executionController c)
  /\ length (scopeStack (variableTracker (runScript c)))
     = length (scopeStack (variableTracker c))
  /\ removelast (scopeStack (variableTracker (runScript c)))
     = removelast (scopeStack (variableTracker c))
  /\ breakpointManager (runScript c) = breakpointManager c.
Proof.
  unfold runScript.
  destruct (simulateFunctionCalls_stack
              (mkConsole (breakpointManager c)
                 (simulateVariableAssignments (variableTracker c))
                 (executionController c))) as [Hs Hc].
  destruct (simulateVariableAssignments_stack (variableTracker c)) as [Hl Hr].
  rewrite Hs, Hc. cbn [variableTracker executionController].
  repeat split; assumption.
Qed.

(** *** Frames under the console *)

Lemma addVariable_global_empty_frames n v l t :
  Forall (fun frame => frame = ∅) (scopeStack t) ->
  scopeStack (addVariable n v "global" l t).1 = scopeStack t.
Proof.
  intros Hf. unfold addVariable, getVariableInfo.
  assert (Hl : last (scopeStack t) ≫= (fun localScope => localScope !! n)
               = None).
  { destruct (last (scopeStack t)) as [frame|] eqn:E; [|reflexivity].
    apply last_Some_elem_of in E. rewrite Forall_forall in Hf.
    rewrite (Hf frame E). cbn. apply lookup_empty. }
  rewrite Hl. now destruct (globalVariables t !! n).
Qed.

Lemma global_sets_empty_frames (calls : list (string * string * Z)) t :
  Forall (fun frame => frame = ∅) (scopeStack t) ->
  scopeStack (fold_left (fun t0 call =>
                           (addVariable call.1.1 call.1.2 "global" call.2 t0).1)
                        calls t)
  = scopeStack t.
Proof.
  revert t. induction calls as [|[[n v] l] calls IH]; intros t Hf;
    [reflexivity|].
  cbn [fold_left]. rewrite IH.
  - now apply addVariable_global_empty_frames.
  - cbn [fst snd]. now rewrite addVariable_global_empty_frames.
Qed.

Lemma simulateVariableAssignments_empty_frames t :
  Forall (fun frame => frame = ∅) (scopeStack t) ->
  scopeStack (simulateVariableAssignments t) = scopeStack t.
Proof.
  intros Hf.
  rewrite <- (global_sets_empty_frames
                [("counter", "42", 10); ("name", "HelloWorld", 11);
                 ("pi", "3.14159", 12); ("items", "{apple banana cherry}", 13);
                 ("config", "{host localhost port 8080}", 14);
                 ("enabled", "true", 15); ("counter", "43", 20);
                 ("counter", "44", 25)] t Hf).
  cbn [fold_left fst snd]. unfold simulateVariableAssignments. cbv zeta.
  reflexivity.
Qed.

Lemma simulateLineExecution_empty_frames (text : string) (ln : Z) c :
  Forall (fun frame => frame = ∅) (scopeStack (variableTracker c)) ->
  Forall (fun frame => frame = ∅)
         (scopeStack (variableTracker (simulateLineExecution text ln c))).
Proof.
  intros Hf.
  assert (Hpush : forall t, Forall (fun frame => frame = ∅) (scopeStack t) ->
            Forall (fun frame => frame = ∅) (scopeStack (pushScope t))).
  { intros t Ht. cbn. apply Forall_app. split; [exact Ht|].
    now repeat constructor. }
  unfold simulateLineExecution.
  destruct (has_substring "set " text);
    [destruct (regex_search_set text) as [[varName v]|]|];
    (destruct (has_substring "proc " text);
     [destruct (regex_search_proc text)|]);
    cbn [variableTracker]; try apply Hpush;
    try rewrite addVariable_global_empty_frames; assumption.
Qed.

Lemma step_empty_frames c :
  Forall (fun frame => frame = ∅) (scopeStack (variableTracker c)) ->
  Forall (fun frame => frame = ∅)
         (scopeStack (variableTracker (simulateStepExecution c))).
Proof.
  intros Hf. unfold simulateStepExecution.
  destruct (negb (empty (getCurrentLineText (executionController c))));
    [|exact Hf].
  cbn. now apply simulateLineExecution_empty_frames.
Qed.

Lemma run_empty_frames c :
  Forall (fun frame => frame = ∅) (scopeStack (variableTracker c)) ->
  Forall (fun frame => frame = ∅) (scopeStack (variableTracker (runScript c))).
Proof.
  intros Hf. unfold runScript.
  rewrite (proj1 (simulateFunctionCalls_stack _)). cbn [variableTracker].
  now rewrite simulateVariableAssignments_empty_frames.
Qed.

(** X28.  Through the console no local variable survives: after any
    sequence of commands every frame of the scope stack is empty (a step
    sets every variable with the scope ["global"], and the frames [run]
    fills are popped before it returns), so [get] finds exactly the
    global variables. *)
Theorem console_frames_stay_empty c :
  console_reachable c ->
  Forall (fun frame => frame = ∅) (scopeStack (variableTracker c))
  /\ forall n, get n (variableTracker c)
               = globalVariables (variableTracker c) !! n.
Proof.
  intros Hr.
  assert (Hf : Forall (fun frame => frame = ∅)
                      (scopeStack (variableTracker c))).
  { induction Hr as [|filePath file c _ IH|c _ IH|c _ IH|c _ IH|c _ IH|c _ IH
                     |l c _ IH|varname c _ IH|l c _ IH|varname c _ IH
                     |varname c _ IH|b c _ IH]; try exact IH.
    - constructor.
    - unfold stepInto. now apply step_empty_frames.
    - unfold stepOver. now apply step_empty_frames.
    - now apply run_empty_frames.
    - unfold continueExecution. now apply run_empty_frames. }
  split; [exact Hf|]. intros n. rewrite get_lookup. unfold local_lookup.
  destruct (last (scopeStack (variableTracker c))) as [frame|] eqn:E;
    [|reflexivity].
  apply last_Some_elem_of in E. rewrite Forall_forall in Hf.
  rewrite (Hf frame E). cbn. now rewrite lookup_empty.
Qed.

(** *** One step *)


(** X29.  The stepper cannot pass a line whose text is empty (a blank
    line of the script, or no script loaded): however many times [step]
    is given, the current line, the variables and the breakpoints stay
    as they are. *)
Theorem step_is_stuck_on_empty_line c (k : nat) :
  getCurrentLineText (executionController c) = "" ->
  let c' := repeat_call stepInto k c in
  currentLine (executionController c') = currentLine (executionController c)
  /\ variableTracker c' = variableTracker c
  /\ breakpointManager c' = breakpointManager c.
Proof.
  revert c. induction k as [|k IH]; intros c Ht; cbn zeta; [now repeat split|].
  cbn [repeat_call].
  assert (Hs : stepInto c
               = mkConsole (breakpointManager c) (variableTracker c)
                           (ctl_stepInto (executionController c))).
  { unfold stepInto, simulateStepExecution. cbn [executionController].
    change (getCurrentLineText (ctl_stepInto (executionController c)))
      with (getCurrentLineText (executionController c)).
    now rewrite Ht. }
  rewrite Hs.
  destruct (IH (mkConsole (breakpointManager c) (variableTracker c)
                          (ctl_stepInto (executionController c))) Ht)
    as (H1 & H2 & H3).
  repeat split; [exact H1 | exact H2 | exact H3].
Qed.


End Stepping.

(** * Instances of the further properties *)

Section FurtherScenarios.
#[local] Existing Instance strtod_in_range.
#[local] Existing Instance regex_no_match.

(** X1, instances: four words in braces, and three. *)
Lemma classify_by_word_count_witness :
  classify "{host localhost port 8080}" = "dictionary"
  /\ classify "{apple banana cherry}" = "list".
Proof.
  split.
  - apply (classify_by_word_count "{host localhost port 8080}"); reflexivity.
  - apply (classify_by_word_count "{apple banana cherry}"); reflexivity.
Defined.

(** X2, instance. *)
Lemma integrated_dictionary_is_dictionary_witness :
  classify "{host localhost port 8080}" = "dictionary".
Proof.
  apply (integrated_dictionary_is_dictionary "{host localhost port 8080}").
  reflexivity.
Defined.

(** X3, instance: two words, the first a number. *)
Lemma leading_digit_is_numeric_witness : classify "3 apples" = "integer".
Proof.
  apply (leading_digit_is_numeric "3" " apples"); reflexivity.
Defined.

(** X4, instance: a list value stored in a pushed frame. *)
Lemma stored_flags_agree_witness :
  flags_agree
    (set_lastModifiedLine 13
       (newVariable "items" "{apple banana cherry}" "local")).
Proof.
  apply (stored_flags_agree
           (addVariable "items" "{apple banana cherry}" "local" 13
              (pushScope newTracker)).1 "items").
  - apply reach_addVariable, reach_pushScope, reach_new.
  - right. eexists. split; [apply list_elem_of_here|]. reflexivity.
Defined.

(** X5, instance: the same record; its view has the three words. *)
Lemma stored_views_agree_witness :
  let r := set_lastModifiedLine 13
             (newVariable "items" "{apple banana cherry}" "local") in
  (type r = "list" ->
   listElements r = words (strip_braces (value r))
   /\ (2 <= length (listElements r))%nat)
  /\ (type r = "dictionary" ->
      dictElements r
      = list_to_map (reverse (pair_up (words (strip_braces (value r)))))).
Proof.
  apply (stored_views_agree
           (addVariable "items" "{apple banana cherry}" "local" 13
              (pushScope newTracker)).1 "items").
  - apply reach_addVariable, reach_pushScope, reach_new.
  - right. eexists. split; [apply list_elem_of_here|]. reflexivity.
Defined.

(** X6, instance: the key [a] twice; the later value is kept. *)
Lemma dictionary_last_pair_wins_witness :
  dictElements (newVariable "d" "a 1 b 2 a 3 c 4" "global") !! "a" = Some "3".
Proof.
  apply (dictionary_last_pair_wins "d" "a 1 b 2 a 3 c 4" "global"
           [("a", "1"); ("b", "2")] "a" "3" [("c", "4")]).
  - reflexivity.
  - reflexivity.
  - apply (bool_decide_unpack _). vm_compute. exact I.
Defined.

(** X8, instance. *)
Lemma stored_history_bounded_witness :
  let r := updateValue "43" 20
             (set_lastModifiedLine 10 (newVariable "counter" "42" "global")) in
  (length (valueHistory r) <= 10)%nat
  /\ (valueHistory r <> [] -> last (valueHistory r) = Some (previousValue r)).
Proof.
  apply (stored_history_bounded
           (addVariable "counter" "43" "global" 20
              (addVariable "counter" "42" "global" 10 newTracker).1).1
           "counter").
  - apply reach_addVariable, reach_addVariable, reach_new.
  - left. reflexivity.
Defined.

(** X10, instance. *)
(** X9, instance: a variable created with [5] and set to [5] three more
    times. *)
Lemma repeated_value_records_nothing_witness :
  let r := update_all [("5", 2); ("5", 3); ("5", 4)]
             (newVariable "x" "5" "global") in
  valueHistory r = [] /\ value r = "5" /\ accessCount r = 3.
Proof.
  apply (repeated_value_records_nothing "x" "5" "global" [2; 3; 4]).
  unfold INT_MAX. cbn [length]. lia.
Defined.

Lemma stored_name_and_scope_witness :
  let t := (addVariable "width" "10" "local" 31
              (pushScope (addVariable "pi" "3.14159" "global" 12
                            newTracker).1)).1 in
  (forall n r, globalVariables t !! n = Some r ->
               name r = n /\ scope r = "global")
  /\ (forall frame n r, frame ∈ scopeStack t -> frame !! n = Some r ->
                        name r = n /\ scope r <> "global").
Proof.
  apply (stored_name_and_scope
           (addVariable "width" "10" "local" 31
              (pushScope (addVariable "pi" "3.14159" "global" 12
                            newTracker).1)).1).
  apply reach_addVariable, reach_pushScope, reach_addVariable, reach_new.
Defined.

(** X12, instance. *)
Lemma addVariable_keeps_other_names_witness :
  let t := (addVariable "pi" "3.14159" "global" 12 newTracker).1 in
  get "pi" (addVariable "counter" "42" "global" 10 t).1 = get "pi" t.
Proof.
  apply (addVariable_keeps_other_names "counter" "pi" "42" "global" 10
           (addVariable "pi" "3.14159" "global" 12 newTracker).1).
  discriminate.
Defined.

(** X14, instance: a local of the demonstration, next to a global. *)
Lemma local_variable_dies_with_scope_witness :
  let t := (addVariable "pi" "3.14159" "global" 12 newTracker).1 in
  popScope (addVariable "width" "10" "local" 31 (pushScope t)).1 = t
  /\ get "width" (addVariable "width" "10" "local" 31 (pushScope t)).1
     = Some (set_lastModifiedLine 31 (newVariable "width" "10" "local")).
Proof.
  apply (local_variable_dies_with_scope "width" "10" "local" 31
           (addVariable "pi" "3.14159" "global" 12 newTracker).1).
  - reflexivity.
  - discriminate.
Defined.

(** X15, instance: lines added out of order, one of them twice. *)
Lemma registry_is_sorted_by_line_witness :
  let m := addBreakpoint 20 "demo.tcl" ""
             (addVariableWatchBreakpoint 0 "counter" "changed"
                (addBreakpoint 7 "demo.tcl" ""
                   (addBreakpoint 20 "demo.tcl" "" (mkManager [])))) in
  StronglySorted Z.lt (breakpoints m).*1
  /\ Forall (fun e => line e.2 = e.1) (breakpoints m).
Proof.
  apply (registry_is_sorted_by_line
           (addBreakpoint 20 "demo.tcl" ""
              (addVariableWatchBreakpoint 0 "counter" "changed"
                 (addBreakpoint 7 "demo.tcl" ""
                    (addBreakpoint 20 "demo.tcl" "" (mkManager [])))))).
  apply mr_add, mr_watch, mr_add, mr_add, mr_new.
Defined.

(** X16, instance. *)
Lemma removeBreakpoint_removes_witness :
  let m := addBreakpoint 20 "demo.tcl" ""
             (addBreakpoint 7 "demo.tcl" "" (mkManager [])) in
  map_find 7 (breakpoints (removeBreakpoint 7 m)) = None
  /\ (hasBreakpoint 7 (removeBreakpoint 7 m)).1 = false
  /\ forall l', l' <> 7 ->
       map_find l' (breakpoints (removeBreakpoint 7 m))
       = map_find l' (breakpoints m).
Proof.
  apply (removeBreakpoint_removes
           (addBreakpoint 20 "demo.tcl" ""
              (addBreakpoint 7 "demo.tcl" "" (mkManager []))) 7).
  apply mr_add, mr_add, mr_new.
Defined.

(** X19, instance: two watches of [counter] that both fire; only the
    first is counted. *)
Lemma watch_check_stops_at_first_witness :
  let w0 := mkBreakpoint 0 "" "" true 0 "counter" "" in
  let w5 := mkBreakpoint 5 "" "changed" true 0 "counter" "changed" in
  checkVariableWatchBreakpoint "counter" "42" "43" (mkManager [(0, w0); (5, w5)])
  = (true, mkManager [(0, hit w0); (5, w5)]).
Proof.
  apply (watch_check_stops_at_first
           (mkManager [(0, mkBreakpoint 0 "" "" true 0 "counter" "");
                       (5, mkBreakpoint 5 "" "changed" true 0 "counter"
                             "changed")])
           "counter" "42" "43" []
           (0, mkBreakpoint 0 "" "" true 0 "counter" "")
           [(5, mkBreakpoint 5 "" "changed" true 0 "counter" "changed")]);
    [repeat constructor; vm_compute; discriminate | reflexivity..].
Defined.

(** X20, instance: the value does not change, so neither watch fires and
    both are counted; the line breakpoint is not. *)
Lemma watch_check_counts_all_witness :
  let w0 := mkBreakpoint 0 "" "" true 0 "counter" "" in
  let w5 := mkBreakpoint 5 "" "changed" true 0 "counter" "changed" in
  let b7 := newBreakpoint 7 "demo.tcl" "" in
  checkVariableWatchBreakpoint "counter" "42" "42"
    (mkManager [(0, w0); (5, w5); (7, b7)])
  = (false, mkManager [(0, hit w0); (5, hit w5); (7, b7)]).
Proof.
  apply (watch_check_counts_all
           (mkManager [(0, mkBreakpoint 0 "" "" true 0 "counter" "");
                       (5, mkBreakpoint 5 "" "changed" true 0 "counter"
                             "changed");
                       (7, newBreakpoint 7 "demo.tcl" "")])
           "counter" "42" "42").
  - repeat constructor; vm_compute; discriminate.
  - reflexivity.
Defined.

(** X21, instance. *)
Lemma watch_condition_key_value_witness :
  watch_returns_true (mkBreakpoint 0 "" "limit=100" true 0 "counter" "limit=100")
                     "99" "100"
  = String.eqb "100" "100".
Proof.
  apply (watch_condition_key_value
           (mkBreakpoint 0 "" "limit=100" true 0 "counter" "limit=100")
           "limit" "100" "99" "100"); reflexivity.
Defined.

(** X22, instance: a condition outside the grammar never fires. *)
Lemma watch_condition_without_equals_witness :
  watch_returns_true (mkBreakpoint 0 "" ">100" true 0 "counter" ">100")
                     "99" "101"
  = false.
Proof.
  apply (watch_condition_without_equals
           (mkBreakpoint 0 "" ">100" true 0 "counter" ">100") "99" "101").
  reflexivity.
Defined.

(** X26, instance: a breakpoint and a watch are set, a script is loaded
    and its line with the breakpoint is stepped over. *)
Lemma console_never_counts_hits_witness :
  let c1 := mkConsole (setBreakpoint
                         (currentScript (executionController newConsole)) 1
                         (breakpointManager newConsole))
                      (variableTracker newConsole)
                      (executionController newConsole) in
  let c2 := mkConsole (setVariableBreakpoint "counter" (breakpointManager c1))
                      (variableTracker c1) (executionController c1) in
  let c3 := console_loadScript "demo.tcl" (Some ["puts hello"; ""; "puts bye"])
              c2 in
  Forall (fun entry => hitCount entry.2 = 0 /\ enabled entry.2 = true
                       /\ (watchVariable entry.2 <> "" -> entry.1 = 0))
         (breakpoints (breakpointManager (stepInto c3))).
Proof.
  cbv zeta.
  apply (console_never_counts_hits _
           (cr_step _
              (cr_load "demo.tcl" (Some ["puts hello"; ""; "puts bye"]) _
                 (cr_breakvar "counter" _ (cr_break 1 _ cr_new))))).
Defined.

(** X29, instance: the second line of the script is blank; after one
    step the console is on it, and five more steps leave it there. *)
Lemma step_is_stuck_on_empty_line_witness :
  let c := stepInto
             (console_loadScript "demo.tcl"
                (Some ["puts hello"; ""; "puts bye"]) newConsole) in
  let c' := repeat_call stepInto 5 c in
  currentLine (executionController c') = currentLine (executionController c)
  /\ variableTracker c' = variableTracker c
  /\ breakpointManager c' = breakpointManager c.
Proof.
  apply (step_is_stuck_on_empty_line
           (stepInto
              (console_loadScript "demo.tcl"
                 (Some ["puts hello"; ""; "puts bye"]) newConsole)) 5).
  reflexivity.
Defined.


End FurtherScenarios.

(** * A script with a procedure header, stepped through *)

Section ProcScenario.
#[local] Existing Instance strtod_in_range.
#[local] Existing Instance regex_demo.

(** X28, instance: stepping over the header of [area] pushes a frame;
    the assignment on the next line is then stored among the globals,
    the pushed frame stays empty, and every lookup is a lookup among the
    globals. *)
Lemma console_frames_stay_empty_witness :
  let c := stepInto
             (stepInto
                (console_loadScript "demo.tcl"
                   (Some ["proc area {} {"; "set width 10"; "}"])
                   newConsole)) in
  scopeStack (variableTracker c) = [∅]
  /\ value <$> globalVariables (variableTracker c) !! "width" = Some "10"
  /\ Forall (fun frame => frame = ∅) (scopeStack (variableTracker c))
  /\ forall n, get n (variableTracker c)
               = globalVariables (variableTracker c) !! n.
Proof.
  split; [vm_compute; reflexivity|].
  split; [vm_compute; reflexivity|].
  apply (console_frames_stay_empty _
           (cr_step _
              (cr_step _
                 (cr_load "demo.tcl"
                    (Some ["proc area {} {"; "set width 10"; "}"]) _
                    cr_new)))).
Defined.

End ProcScenario.
